(** * Illien: the entry selector and autosave machine of [App.tsx]

    A shallow embedding of the [App] component: its React state, the
    functions it closes over ([loadEntries], [saveEntry], the handlers) and
    its effects with their dependency arrays.  Asynchronous backend calls
    ([invoke]) and the debounce timer ([setTimeout]) are made explicit: a
    call is logged and left pending until the environment settles it, a
    timer is kept in a table until the clock reaches its deadline or
    [clearTimeout] removes it.

    Left out are the parts of the component that neither read nor write
    the buffer, the open entry or the save status: the theme, the settings
    panel, the sidebar toggle, the formatting of dates and the markup.  The
    preference store ([get_journal_directory], [set_journal_directory],
    the dark mode commands) is not part of the storage backend and its
    calls are not logged. *)

From Stdlib Require Import List NArith Bool Arith Lia String Ascii Permutation.
Import ListNotations.

Set Implicit Arguments.

(** ** JavaScript strings *)

(** A JavaScript string is a sequence of UTF-16 code units. *)
Definition char16 := N.
Definition jsstring := list char16.

(** The code units of an ASCII literal. *)
Definition js (s : string) : jsstring :=
  map N_of_ascii (list_ascii_of_string s).

(** [===] on two strings. *)
Fixpoint str_eqb (a b : jsstring) : bool :=
  match a, b with
  | [], [] => true
  | x :: a', y :: b' => N.eqb x y && str_eqb a' b'
  | _, _ => false
  end.

(** [WhiteSpace] and [LineTerminator] of ECMAScript: what [\s] matches and
    what [String.prototype.trim] strips. *)
Definition is_space (c : char16) : bool :=
  ((9 <=? c) && (c <=? 13) || (c =? 32) || (c =? 160) || (c =? 5760)
   || (8192 <=? c) && (c <=? 8202) || (c =? 8232) || (c =? 8233)
   || (c =? 8239) || (c =? 8287) || (c =? 12288) || (c =? 65279))%N.

Fixpoint trimStart (s : jsstring) : jsstring :=
  match s with
  | c :: r => if is_space c then trimStart r else s
  | [] => []
  end.

Definition trimEnd (s : jsstring) : jsstring := rev (trimStart (rev s)).

(** [s.trim()] *)
Definition trim (s : jsstring) : jsstring := trimEnd (trimStart s).

(** The character class of the first [replace] of [handleCreateNewEntry]:
    less-than, greater-than, colon, double quote, slash, backslash,
    vertical bar, question mark, asterisk. *)
Definition is_reserved (c : char16) : bool :=
  ((c =? 60) || (c =? 62) || (c =? 58) || (c =? 34) || (c =? 47)
   || (c =? 92) || (c =? 124) || (c =? 63) || (c =? 42))%N.

Definition hyphen : char16 := 45%N.
Definition space : char16 := 32%N.

(** The first [replace], global, with a hyphen as replacement: every match
    is one code unit. *)
Definition replace_reserved (s : jsstring) : jsstring :=
  map (fun c => if is_reserved c then hyphen else c) s.

(** The second [replace], global, of [\s+] by one space: [in_run] tells
    that the code unit before the rest of the string belonged to the match
    being replaced. *)
Fixpoint replace_spaces_from (in_run : bool) (s : jsstring) : jsstring :=
  match s with
  | [] => []
  | c :: r =>
      if is_space c
      then (if in_run then replace_spaces_from true r
            else space :: replace_spaces_from true r)
      else c :: replace_spaces_from false r
  end.

Definition replace_spaces (s : jsstring) : jsstring :=
  replace_spaces_from false s.

(** [sanitizedTitle] of [handleCreateNewEntry]. *)
Definition sanitizedTitle (newEntryTitle : jsstring) : jsstring :=
  replace_spaces (replace_reserved (trim newEntryTitle)).

(** [`${sanitizedTitle}.md`] *)
Definition titled_filename (newEntryTitle : jsstring) : jsstring :=
  sanitizedTitle newEntryTitle ++ js ".md".

(** The sanitization as the specification words it: each reserved
    character becomes a hyphen, each maximal run of whitespace becomes one
    space, everything else is kept. *)
Inductive sanitizes : jsstring -> jsstring -> Prop :=
| sanitizes_nil : sanitizes [] []
| sanitizes_reserved c r r' :
    is_reserved c = true -> sanitizes r r' ->
    sanitizes (c :: r) (hyphen :: r')
| sanitizes_keep c r r' :
    is_reserved c = false -> is_space c = false -> sanitizes r r' ->
    sanitizes (c :: r) (c :: r')
| sanitizes_run run r r' :
    run <> [] -> forallb is_space run = true ->
    hd_error (map is_space r) <> Some true ->
    sanitizes r r' ->
    sanitizes (run ++ r) (space :: r').

(** The filename the specification's wording gives for a title. *)
Definition spec_filename (title : jsstring) : jsstring :=
  replace_spaces (replace_reserved title) ++ js ".md".

(** ** Data model *)

Inductive EntryType := daily | titled.

(** [interface JournalEntry] *)
Record JournalEntry := {
  filename : jsstring;
  entry_type : EntryType;
  title : jsstring;
  date : option jsstring
}.

Inductive SaveStatus := saved | saving | unsaved.

(** A [JournalEntry] object: React compares [currentEntry] across renders
    with [Object.is], by identity and not by fields, so every object
    carries the identity it was allocated with. *)
Record EntryRef := { oid : nat; obj : JournalEntry }.

(** The four commands of the storage backend, with the arguments [invoke]
    is given. *)
Inductive Call :=
| load_journal (file directory : jsstring)
| save_journal (file text directory : jsstring)
| list_journal_entries (directory : jsstring)
| delete_journal (file directory : jsstring).

(** What the functions of one render close over: the state values that
    [saveEntry] and [loadEntries] read. *)
Record Closure := {
  c_directory : option jsstring;
  c_entry : option EntryRef;
  c_content : jsstring
}.

(** A timer armed by [setTimeout]; its callback calls the [saveEntry] of
    the render that armed it. *)
Record Timer := {
  timer_id : nat;
  delay : nat;
  deadline : nat;
  callback : Closure
}.

(** How an [invoke] settles: with a value, or with an error that the
    [catch] of the caller receives. *)
Inductive Outcome (A : Type) := resolved (a : A) | rejected.
Arguments rejected {A}.

(** The code that runs when a pending [invoke] settles. *)
Inductive Continuation :=
| after_load                      (* the rest of [loadEntry] *)
| after_save (cl : Closure)       (* the rest of [saveEntry] *)
| after_list (then_today : bool)  (* the rest of [loadEntries]; [then_today]
                                     when [handleDeleteEntry] awaits it *)
| after_delete (cl : Closure).    (* the rest of [handleDeleteEntry] *)

Record Promise := { promise_id : nat; cont : Continuation }.

Record State := {
  (* the date the renders compute; it stays the same during a run *)
  today : jsstring;
  (* useState *)
  content : jsstring;
  journalDirectory : option jsstring;
  saveStatus : SaveStatus;
  showNewEntryModal : bool;
  newEntryTitle : jsstring;
  entries : list EntryRef;
  currentEntry : option EntryRef;
  (* the event loop *)
  now : nat;
  timers : list Timer;
  cleanup : option nat;     (* the timer the debounce effect clears next *)
  pending : list Promise;
  next_id : nat;            (* next timer, promise or object identity *)
  (* what the component did to the outside *)
  calls : list Call;        (* newest first *)
  console : list string;    (* [console.error], newest first *)
  dialogs : list jsstring   (* [window.confirm], newest first *)
}.

Definition setContent (v : jsstring) (s : State) : State :=
  {| today := today s; content := v; journalDirectory := journalDirectory s;
     saveStatus := saveStatus s; showNewEntryModal := showNewEntryModal s;
     newEntryTitle := newEntryTitle s; entries := entries s; currentEntry :=
     currentEntry s; now := now s; timers := timers s; cleanup := cleanup s;
     pending := pending s; next_id := next_id s; calls := calls s; console
     := console s; dialogs := dialogs s |}.

Definition setJournalDirectory (v : option jsstring) (s : State) : State :=
  {| today := today s; content := content s; journalDirectory := v;
     saveStatus := saveStatus s; showNewEntryModal := showNewEntryModal s;
     newEntryTitle := newEntryTitle s; entries := entries s; currentEntry :=
     currentEntry s; now := now s; timers := timers s; cleanup := cleanup s;
     pending := pending s; next_id := next_id s; calls := calls s; console
     := console s; dialogs := dialogs s |}.

Definition setSaveStatus (v : SaveStatus) (s : State) : State :=
  {| today := today s; content := content s; journalDirectory :=
     journalDirectory s; saveStatus := v; showNewEntryModal :=
     showNewEntryModal s; newEntryTitle := newEntryTitle s; entries :=
     entries s; currentEntry := currentEntry s; now := now s; timers :=
     timers s; cleanup := cleanup s; pending := pending s; next_id :=
     next_id s; calls := calls s; console := console s; dialogs := dialogs s
     |}.

Definition setShowNewEntryModal (v : bool) (s : State) : State :=
  {| today := today s; content := content s; journalDirectory :=
     journalDirectory s; saveStatus := saveStatus s; showNewEntryModal := v;
     newEntryTitle := newEntryTitle s; entries := entries s; currentEntry :=
     currentEntry s; now := now s; timers := timers s; cleanup := cleanup s;
     pending := pending s; next_id := next_id s; calls := calls s; console
     := console s; dialogs := dialogs s |}.

Definition setNewEntryTitle (v : jsstring) (s : State) : State :=
  {| today := today s; content := content s; journalDirectory :=
     journalDirectory s; saveStatus := saveStatus s; showNewEntryModal :=
     showNewEntryModal s; newEntryTitle := v; entries := entries s;
     currentEntry := currentEntry s; now := now s; timers := timers s;
     cleanup := cleanup s; pending := pending s; next_id := next_id s; calls
     := calls s; console := console s; dialogs := dialogs s |}.

Definition set_entries (v : list EntryRef) (s : State) : State :=
  {| today := today s; content := content s; journalDirectory :=
     journalDirectory s; saveStatus := saveStatus s; showNewEntryModal :=
     showNewEntryModal s; newEntryTitle := newEntryTitle s; entries := v;
     currentEntry := currentEntry s; now := now s; timers := timers s;
     cleanup := cleanup s; pending := pending s; next_id := next_id s; calls
     := calls s; console := console s; dialogs := dialogs s |}.

Definition setCurrentEntry (v : option EntryRef) (s : State) : State :=
  {| today := today s; content := content s; journalDirectory :=
     journalDirectory s; saveStatus := saveStatus s; showNewEntryModal :=
     showNewEntryModal s; newEntryTitle := newEntryTitle s; entries :=
     entries s; currentEntry := v; now := now s; timers := timers s; cleanup
     := cleanup s; pending := pending s; next_id := next_id s; calls :=
     calls s; console := console s; dialogs := dialogs s |}.

Definition set_now (v : nat) (s : State) : State :=
  {| today := today s; content := content s; journalDirectory :=
     journalDirectory s; saveStatus := saveStatus s; showNewEntryModal :=
     showNewEntryModal s; newEntryTitle := newEntryTitle s; entries :=
     entries s; currentEntry := currentEntry s; now := v; timers := timers
     s; cleanup := cleanup s; pending := pending s; next_id := next_id s;
     calls := calls s; console := console s; dialogs := dialogs s |}.

Definition set_timers (v : list Timer) (s : State) : State :=
  {| today := today s; content := content s; journalDirectory :=
     journalDirectory s; saveStatus := saveStatus s; showNewEntryModal :=
     showNewEntryModal s; newEntryTitle := newEntryTitle s; entries :=
     entries s; currentEntry := currentEntry s; now := now s; timers := v;
     cleanup := cleanup s; pending := pending s; next_id := next_id s; calls
     := calls s; console := console s; dialogs := dialogs s |}.

Definition set_cleanup (v : option nat) (s : State) : State :=
  {| today := today s; content := content s; journalDirectory :=
     journalDirectory s; saveStatus := saveStatus s; showNewEntryModal :=
     showNewEntryModal s; newEntryTitle := newEntryTitle s; entries :=
     entries s; currentEntry := currentEntry s; now := now s; timers :=
     timers s; cleanup := v; pending := pending s; next_id := next_id s;
     calls := calls s; console := console s; dialogs := dialogs s |}.

Definition set_pending (v : list Promise) (s : State) : State :=
  {| today := today s; content := content s; journalDirectory :=
     journalDirectory s; saveStatus := saveStatus s; showNewEntryModal :=
     showNewEntryModal s; newEntryTitle := newEntryTitle s; entries :=
     entries s; currentEntry := currentEntry s; now := now s; timers :=
     timers s; cleanup := cleanup s; pending := v; next_id := next_id s;
     calls := calls s; console := console s; dialogs := dialogs s |}.

Definition set_next_id (v : nat) (s : State) : State :=
  {| today := today s; content := content s; journalDirectory :=
     journalDirectory s; saveStatus := saveStatus s; showNewEntryModal :=
     showNewEntryModal s; newEntryTitle := newEntryTitle s; entries :=
     entries s; currentEntry := currentEntry s; now := now s; timers :=
     timers s; cleanup := cleanup s; pending := pending s; next_id := v;
     calls := calls s; console := console s; dialogs := dialogs s |}.

Definition set_calls (v : list Call) (s : State) : State :=
  {| today := today s; content := content s; journalDirectory :=
     journalDirectory s; saveStatus := saveStatus s; showNewEntryModal :=
     showNewEntryModal s; newEntryTitle := newEntryTitle s; entries :=
     entries s; currentEntry := currentEntry s; now := now s; timers :=
     timers s; cleanup := cleanup s; pending := pending s; next_id :=
     next_id s; calls := v; console := console s; dialogs := dialogs s |}.

Definition set_console (v : list string) (s : State) : State :=
  {| today := today s; content := content s; journalDirectory :=
     journalDirectory s; saveStatus := saveStatus s; showNewEntryModal :=
     showNewEntryModal s; newEntryTitle := newEntryTitle s; entries :=
     entries s; currentEntry := currentEntry s; now := now s; timers :=
     timers s; cleanup := cleanup s; pending := pending s; next_id :=
     next_id s; calls := calls s; console := v; dialogs := dialogs s |}.

Definition set_dialogs (v : list jsstring) (s : State) : State :=
  {| today := today s; content := content s; journalDirectory :=
     journalDirectory s; saveStatus := saveStatus s; showNewEntryModal :=
     showNewEntryModal s; newEntryTitle := newEntryTitle s; entries :=
     entries s; currentEntry := currentEntry s; now := now s; timers :=
     timers s; cleanup := cleanup s; pending := pending s; next_id :=
     next_id s; calls := calls s; console := console s; dialogs := v |}.

(** The initial render of [App] on the date [d]. *)
Definition init (d : jsstring) : State :=
  {| today := d; content := []; journalDirectory := None;
     saveStatus := saved; showNewEntryModal := false; newEntryTitle := [];
     entries := []; currentEntry := None; now := 0; timers := [];
     cleanup := None; pending := []; next_id := 0; calls := [];
     console := []; dialogs := [] |}.

(** ** The functions of the component *)

Definition render (s : State) : Closure :=
  {| c_directory := journalDirectory s; c_entry := currentEntry s;
     c_content := content s |}.

(** [invoke(c)]: the call goes out and its promise is pending. *)
Definition invoke (c : Call) (k : Continuation) (s : State) : State :=
  set_next_id (S (next_id s))
    (set_pending (pending s ++ [{| promise_id := next_id s; cont := k |}])
       (set_calls (c :: calls s) s)).

Definition console_error (msg : string) (s : State) : State :=
  set_console (msg :: console s) s.

(** The object literal of [handleGoToToday] and of the default-entry
    effect. *)
Definition today_entry (s : State) : JournalEntry :=
  {| filename := today s ++ js ".md"; entry_type := daily;
     title := today s; date := Some (today s) |}.

(** [setCurrentEntry] with a new object. *)
Definition setCurrentEntry_new (e : JournalEntry) (s : State) : State :=
  set_next_id (S (next_id s))
    (setCurrentEntry (Some {| oid := next_id s; obj := e |}) s).

Definition handleGoToToday (s : State) : State :=
  setCurrentEntry_new (today_entry s) s.

(** [loadEntries], as closed over [directory].  With [then_today] it is
    the call awaited by [handleDeleteEntry], which goes on with
    [handleGoToToday]. *)
Definition loadEntries (directory : option jsstring) (then_today : bool)
    (s : State) : State :=
  match directory with
  | Some (c :: d) =>
      invoke (list_journal_entries (c :: d)) (after_list then_today) s
  | _ => if then_today then handleGoToToday s else s
  end.

(** [loadEntry] of the effect on [journalDirectory, currentEntry]. *)
Definition loadEntry (r : Closure) (s : State) : State :=
  match c_directory r, c_entry r with
  | Some (c :: d), Some e =>
      invoke (load_journal (filename (obj e)) (c :: d)) after_load s
  | _, _ => s
  end.

(** [saveEntry], as closed over [cl]. *)
Definition saveEntry (cl : Closure) (s : State) : State :=
  match c_directory cl, c_entry cl with
  | Some (c :: d), Some e =>
      invoke (save_journal (filename (obj e)) (c_content cl) (c :: d))
        (after_save cl) (setSaveStatus saving s)
  | _, _ => s
  end.

Definition is_empty (a : jsstring) : bool :=
  match a with [] => true | _ => false end.

(** [saveEntry] after [await invoke]. *)
Definition saveEntry_settled (cl : Closure) (ok : bool) (s : State) : State :=
  if ok then
    let s1 := setSaveStatus saved s in
    if negb (is_empty (trim (c_content cl)))
    then loadEntries (c_directory cl) false s1
    else s1
  else setSaveStatus unsaved (console_error "Failed to save journal entry:" s).

(** [loadEntry] after [await invoke]: the buffer becomes [entry] or, when
    that is [null] or empty, the empty string. *)
Definition loadEntry_settled (r : Outcome (option jsstring)) (s : State)
    : State :=
  match r with
  | resolved entry =>
      setSaveStatus saved
        (setContent (match entry with Some t => t | None => [] end) s)
  | rejected => console_error "Failed to load journal entry:" s
  end.

Fixpoint allocate (n : nat) (l : list JournalEntry) : list EntryRef :=
  match l with
  | [] => []
  | e :: r => {| oid := n; obj := e |} :: allocate (S n) r
  end.

(** [loadEntries] after [await invoke]; the array that arrives holds new
    objects. *)
Definition loadEntries_settled (then_today : bool)
    (r : Outcome (list JournalEntry)) (s : State) : State :=
  let s1 :=
    match r with
    | resolved entryList =>
        set_next_id (next_id s + List.length entryList)
          (set_entries (allocate (next_id s) entryList) s)
    | rejected => console_error "Failed to load entries list:" s
    end in
  if then_today then handleGoToToday s1 else s1.

Definition quote : char16 := 34%N.

Definition handleDeleteEntry (confirmed : bool) (s : State) : State :=
  match journalDirectory s, currentEntry s with
  | Some (c :: d), Some e =>
      match entry_type (obj e) with
      | daily => s
      | titled =>
          let s1 :=
            set_dialogs
              ((js "Delete " ++ quote :: title (obj e) ++ quote :: js "?")
                 :: dialogs s) s in
          if confirmed
          then invoke (delete_journal (filename (obj e)) (c :: d))
                 (after_delete (render s)) s1
          else s1
      end
  | _, _ => s
  end.

(** [handleDeleteEntry] after [await invoke]. *)
Definition handleDeleteEntry_settled (cl : Closure) (ok : bool) (s : State)
    : State :=
  if ok then loadEntries (c_directory cl) true s
  else console_error "Failed to delete entry:" s.

Definition handleSelectEntry (entry : EntryRef) (s : State) : State :=
  setCurrentEntry (Some entry) s.

Definition handleCreateNewEntry (s : State) : State :=
  if is_empty (trim (newEntryTitle s)) then s
  else
    let newEntry :=
      {| filename := titled_filename (newEntryTitle s);
         entry_type := titled;
         title := sanitizedTitle (newEntryTitle s);
         date := None |} in
    setShowNewEntryModal false
      (setNewEntryTitle []
         (setContent [] (setCurrentEntry_new newEntry s))).

(** [if (dir) setJournalDirectory(dir)], of [loadSettings] and of
    [handleSelectDirectory]. *)
Definition chooseDirectory (dir : option jsstring) (s : State) : State :=
  match dir with
  | Some (c :: d) => setJournalDirectory (Some (c :: d)) s
  | _ => s
  end.

(** ** Timers and effects *)

Definition clearTimeout (id : nat) (s : State) : State :=
  set_timers (filter (fun t => negb (timer_id t =? id)) (timers s)) s.

(** [setTimeout(() => saveEntry(), ms)] in the render closed over [cb];
    the timer gets the identity [next_id s]. *)
Definition setTimeout (cb : Closure) (ms : nat) (s : State) : State :=
  set_next_id (S (next_id s))
    (set_timers
       (timers s ++ [{| timer_id := next_id s; delay := ms;
                        deadline := now s + ms; callback := cb |}]) s).

(** The function the debounce effect returned last, if it returned one. *)
Definition debounce_cleanup (s : State) : State :=
  match cleanup s with
  | Some id => set_cleanup None (clearTimeout id s)
  | None => s
  end.

(** The debounce effect, in the render closed over [r]. *)
Definition debounce_effect (r : Closure) (s : State) : State :=
  match c_directory r, c_entry r with
  | Some (_ :: _), Some _ =>
      let s1 := setSaveStatus unsaved s in
      set_cleanup (Some (next_id s1)) (setTimeout r 1000 s1)
  | _, _ => s
  end.

(** The effect that opens today's entry once a directory is there. *)
Definition default_entry_effect (r : Closure) (s : State) : State :=
  match c_directory r, c_entry r with
  | Some (_ :: _), None => setCurrentEntry_new (today_entry s) s
  | _, _ => s
  end.

(** [Object.is] on the values the dependency arrays hold. *)
Definition same_directory (a b : option jsstring) : bool :=
  match a, b with
  | None, None => true
  | Some x, Some y => str_eqb x y
  | _, _ => false
  end.

Definition same_entry (a b : option EntryRef) : bool :=
  match a, b with
  | None, None => true
  | Some x, Some y => oid x =? oid y
  | _, _ => false
  end.

(** The effects that follow a render closed over [cur] when the render
    before it was closed over [prev].  An effect runs when one of its
    dependencies changed: [loadEntries] changes with [journalDirectory],
    [saveEntry] with [journalDirectory], [currentEntry] or [content].  The
    cleanups run first, then the effects in the order of the source.  The
    effects read the values of their render ([cur]); what they set shows in
    the next render. *)
Definition effects (prev cur : Closure) (s : State) : State :=
  let dir := negb (same_directory (c_directory prev) (c_directory cur)) in
  let ent := dir || negb (same_entry (c_entry prev) (c_entry cur)) in
  let txt := ent || negb (str_eqb (c_content prev) (c_content cur)) in
  let s0 := if txt then debounce_cleanup s else s in
  let s1 := if dir then loadEntries (c_directory cur) false s0 else s0 in
  let s2 := if ent then default_entry_effect cur s1 else s1 in
  let s3 := if ent then loadEntry cur s2 else s2 in
  if txt then debounce_effect cur s3 else s3.

(** Rendering until nothing changes: an effect of the first pass may set
    [currentEntry], which the second pass sees; the second pass sets
    [saveStatus] only, on which no effect depends. *)
Definition commit (prev : Closure) (s : State) : State :=
  let s1 := effects prev (render s) s in
  effects (render s) (render s1) s1.

(** ** Events *)

(** What the user and the environment do to the component.  The view is
    not modelled: every event may arrive in every state. *)
Inductive Event :=
  (* [loadSettings] received the stored directory *)
| SettingsLoaded (dir : option jsstring)
  (* the dialog of [handleSelectDirectory] closed *)
| DirectorySelected (selected : option jsstring)
  (* [onChange] of the editor *)
| Edit (text : jsstring)
  (* the button that opens the new-entry modal *)
| OpenNewEntryModal
  (* [onChange] of the input of the modal *)
| TypeTitle (text : jsstring)
  (* [handleCreateNewEntry] *)
| CreateNewEntry
  (* [handleSelectEntry] on the [i]-th of [entries] *)
| SelectEntry (i : nat)
  (* [handleGoToToday] *)
| GoToToday
  (* [handleDeleteEntry], with the answer to [window.confirm] *)
| DeleteEntry (confirmed : bool)
  (* [ms] milliseconds pass *)
| Elapse (ms : nat)
  (* the promise [id] settles *)
| LoadSettled (id : nat) (r : Outcome (option jsstring))
| SaveSettled (id : nat) (ok : bool)
| ListSettled (id : nat) (r : Outcome (list JournalEntry))
| DeleteSettled (id : nat) (ok : bool).

(** The code that waits for the promise [id]. *)
Definition awaiting (id : nat) (s : State) : option Continuation :=
  option_map cont (find (fun p => promise_id p =? id) (pending s)).

(** The promise [id] leaves the pending ones. *)
Definition forget (id : nat) (s : State) : State :=
  set_pending (filter (fun q => negb (promise_id q =? id)) (pending s)) s.

(** The clock advances by [ms]; the timers that are due fire in the order
    they were armed in. *)
Definition elapse (ms : nat) (s : State) : State :=
  let t := now s + ms in
  let (due, rest) := partition (fun tm => deadline tm <=? t) (timers s) in
  fold_left (fun acc tm => saveEntry (callback tm) acc) due
    (set_timers rest (set_now t s)).

(** The handler of an event, before React renders again. *)
Definition handle (e : Event) (s : State) : State :=
  match e with
  | SettingsLoaded dir => chooseDirectory dir s
  | DirectorySelected selected => chooseDirectory selected s
  | Edit text => setContent text s
  | OpenNewEntryModal => setShowNewEntryModal true s
  | TypeTitle text => setNewEntryTitle text s
  | CreateNewEntry => handleCreateNewEntry s
  | SelectEntry i =>
      match nth_error (entries s) i with
      | Some entry => handleSelectEntry entry s
      | None => s
      end
  | GoToToday => handleGoToToday s
  | DeleteEntry confirmed => handleDeleteEntry confirmed s
  | Elapse ms => elapse ms s
  | LoadSettled id r =>
      match awaiting id s with
      | Some after_load => loadEntry_settled r (forget id s)
      | _ => s
      end
  | SaveSettled id ok =>
      match awaiting id s with
      | Some (after_save cl) => saveEntry_settled cl ok (forget id s)
      | _ => s
      end
  | ListSettled id r =>
      match awaiting id s with
      | Some (after_list then_today) =>
          loadEntries_settled then_today r (forget id s)
      | _ => s
      end
  | DeleteSettled id ok =>
      match awaiting id s with
      | Some (after_delete cl) => handleDeleteEntry_settled cl ok (forget id s)
      | _ => s
      end
  end.

(** One event: its handler, then the renders and effects it causes. *)
Definition step (s : State) (e : Event) : State :=
  commit (render s) (handle e s).

Definition run (s : State) (evs : list Event) : State :=
  fold_left step evs s.

(** ** Well-formed states *)

(** [journalDirectory] passes the guards: it is neither [null] nor empty. *)
Definition configured (d : option jsstring) : bool :=
  match d with Some (_ :: _) => true | _ => false end.

(** At most one timer is armed, and it is the one the cleanup of the
    debounce effect clears. *)
Definition timers_wf (s : State) : bool :=
  match timers s with
  | [] => true
  | [t] =>
      match cleanup s with
      | Some id => timer_id t =? id
      | None => false
      end
  | _ => false
  end.

(** The identities of the pending promises have been handed out. *)
Definition promises_fresh (s : State) : bool :=
  forallb (fun p => promise_id p <? next_id s) (pending s).

(** The identities of the objects in the state have been handed out. *)
Definition objects_fresh (s : State) : bool :=
  match currentEntry s with
  | Some e => oid e <? next_id s
  | None => true
  end
  && forallb (fun e => oid e <? next_id s) (entries s).

Definition fresh (s : State) : Prop :=
  promises_fresh s = true /\ objects_fresh s = true.

(** What holds between two events of every run from [init]: without a
    directory nothing is armed or pending, and with one an entry is open. *)
Definition settled (s : State) : Prop :=
  (configured (journalDirectory s) = false ->
   timers s = [] /\ pending s = [])
  /\ (configured (journalDirectory s) = true -> currentEntry s <> None).

(** ** Bursts of edits *)

(** Edits, each followed by the time until the next event. *)
Definition burst (edits : list (jsstring * nat)) : list Event :=
  flat_map (fun p => [Edit (fst p); Elapse (snd p)]) edits.

(** Every text differs from the buffer it replaces, which starts as [c]. *)
Fixpoint mutations (c : jsstring) (texts : list jsstring) : Prop :=
  match texts with
  | [] => True
  | t :: r => t <> c /\ mutations t r
  end.

(** ** A session *)

Definition journal : jsstring := js "/home/me/journal".
Definition jan20 : jsstring := js "2026-01-20".

Definition trip : JournalEntry :=
  {| filename := js "Trip.md"; entry_type := titled; title := js "Trip";
     date := None |}.

(** The application started on 2026-01-20 with [journal] as its
    directory; the directory holds [Trip.md] and no file for the day. *)
Definition opened : State :=
  run (init jan20)
    [SettingsLoaded (Some journal); ListSettled 0 (resolved [trip]);
     LoadSettled 2 (resolved None)].

(** ** The sidebar and the header *)

(** [isToday]: the open entry is the file of today. *)
Definition isToday (s : State) : bool :=
  match currentEntry s with
  | Some e => str_eqb (filename (obj e)) (today s ++ js ".md")
  | None => false
  end.

(** The two sections of the sidebar. *)
Definition is_daily (e : EntryRef) : bool :=
  match entry_type (obj e) with daily => true | titled => false end.

Definition is_titled (e : EntryRef) : bool :=
  match entry_type (obj e) with titled => true | daily => false end.

Definition dailyEntries (s : State) : list EntryRef :=
  filter is_daily (entries s).

Definition titledEntries (s : State) : list EntryRef :=
  filter is_titled (entries s).

(** ** What is observed of a state *)

(** The calls that write an entry. *)
Definition is_save (c : Call) : bool :=
  match c with save_journal _ _ _ => true | _ => false end.

(** The directory a call names, and whether it names one. *)
Definition call_directory (c : Call) : jsstring :=
  match c with
  | load_journal _ d | save_journal _ _ d | list_journal_entries d
  | delete_journal _ d => d
  end.

Definition directed (c : Call) : bool := negb (is_empty (call_directory c)).

(** Every armed timer has the delay of the debounce and is due within it. *)
Definition on_time (s : State) : Prop :=
  Forall (fun t => delay t = 1000 /\ now s < deadline t <= now s + 1000)
    (timers s).

(** ** Settings *)

(** The commands of the preference store. *)
Inductive StoreCall :=
| get_journal_directory
| get_dark_mode
| set_dark_mode (value : bool)
| set_journal_directory (directory : jsstring).

(** Where [loadSettings] is: before its first [await] has settled, before
    its second has, or past both. *)
Inductive SettingsPhase :=
| reading_directory | reading_dark_mode | settings_read.

Record Settings := {
  darkMode : bool;
  settingsLoaded : bool;
  reading : SettingsPhase;
  store : list StoreCall;            (* newest first *)
  settings_console : list string     (* [console.error], newest first *)
}.

(** The component: the state of the journal and the settings. *)
Record AppState := { core : State; settings : Settings }.

(** The first render on the date [d] when the system prefers the dark
    scheme or not: [loadSettings] has asked for the directory, and the
    dark mode effect has found [settingsLoaded] false. *)
Definition mount (d : jsstring) (prefersDark : bool) : AppState :=
  {| core := init d;
     settings := {| darkMode := prefersDark; settingsLoaded := false;
                    reading := reading_directory;
                    store := [get_journal_directory];
                    settings_console := [] |} |}.

Definition store_invoke (c : StoreCall) (t : Settings) : Settings :=
  {| darkMode := darkMode t; settingsLoaded := settingsLoaded t;
     reading := reading t; store := c :: store t;
     settings_console := settings_console t |}.

(** The effect on [darkMode, settingsLoaded], after a render with the
    values of [cur] that follows one with the values of [prev]. *)
Definition dark_mode_effect (prev cur : Settings) : Settings :=
  if Bool.eqb (darkMode prev) (darkMode cur)
     && Bool.eqb (settingsLoaded prev) (settingsLoaded cur)
  then cur
  else if settingsLoaded cur
       then store_invoke (set_dark_mode (darkMode cur)) cur
       else cur.

(** The end of [loadSettings]: [setSettingsLoaded(true)], after
    [setDarkMode] when a stored value arrived and after [console.error]
    when an [await] threw. *)
Definition finish_loadSettings (stored : option bool) (failed : bool)
    (t : Settings) : Settings :=
  {| darkMode := match stored with Some b => b | None => darkMode t end;
     settingsLoaded := true;
     reading := settings_read;
     store := store t;
     settings_console :=
       if failed
       then "Failed to load settings:"%string :: settings_console t
       else settings_console t |}.

Definition setDarkMode (b : bool) (t : Settings) : Settings :=
  {| darkMode := b; settingsLoaded := settingsLoaded t;
     reading := reading t; store := store t;
     settings_console := settings_console t |}.

Definition set_reading (p : SettingsPhase) (t : Settings) : Settings :=
  {| darkMode := darkMode t; settingsLoaded := settingsLoaded t;
     reading := p; store := store t;
     settings_console := settings_console t |}.

Inductive AppEvent :=
  (* an event of the journal; [SettingsLoaded] is the first [await] of
     [loadSettings] settling with the stored directory *)
| Core (e : Event)
  (* the first [await] of [loadSettings] threw *)
| DirectoryReadFailed
  (* the second [await] of [loadSettings] settled *)
| DarkModeRead (r : Outcome (option bool))
  (* the button of the theme *)
| ToggleDarkMode.

Definition is_reading_directory (t : Settings) : bool :=
  match reading t with reading_directory => true | _ => false end.

Definition is_reading_dark_mode (t : Settings) : bool :=
  match reading t with reading_dark_mode => true | _ => false end.

Definition app_step (a : AppState) (ev : AppEvent) : AppState :=
  let t := settings a in
  match ev with
  | Core (SettingsLoaded dir) =>
      if is_reading_directory t
      then {| core := step (core a) (SettingsLoaded dir);
              settings :=
                store_invoke get_dark_mode (set_reading reading_dark_mode t) |}
      else a
  | Core (DirectorySelected selected) =>
      {| core := step (core a) (DirectorySelected selected);
         settings :=
           match selected with
           | Some (c :: d) => store_invoke (set_journal_directory (c :: d)) t
           | _ => t
           end |}
  | Core e => {| core := step (core a) e; settings := t |}
  | DirectoryReadFailed =>
      if is_reading_directory t
      then {| core := core a;
              settings :=
                dark_mode_effect t (finish_loadSettings None true t) |}
      else a
  | DarkModeRead r =>
      if is_reading_dark_mode t
      then {| core := core a;
              settings :=
                dark_mode_effect t
                  match r with
                  | resolved stored => finish_loadSettings stored false t
                  | rejected => finish_loadSettings None true t
                  end |}
      else a
  | ToggleDarkMode =>
      {| core := core a;
         settings := dark_mode_effect t (setDarkMode (negb (darkMode t)) t) |}
  end.

Definition app_run (a : AppState) (evs : list AppEvent) : AppState :=
  fold_left app_step evs a.

Definition is_dark_mode_write (c : StoreCall) : bool :=
  match c with set_dark_mode _ => true | _ => false end.

Definition is_dark_mode_read (c : StoreCall) : bool :=
  match c with get_dark_mode => true | _ => false end.

(** What holds of the settings between two events: until [loadSettings]
    is through, the dark mode has not been written; from then on the
    last value written is the one shown. *)
Definition theme_inv (t : Settings) : Prop :=
  if settingsLoaded t
  then reading t = settings_read
       /\ find is_dark_mode_write (store t)
          = Some (set_dark_mode (darkMode t))
  else reading t <> settings_read
       /\ filter is_dark_mode_write (store t) = [].

(** ** The revision with one entry for the day

  The [App] of [part_000] that starts at line 417: no list of entries
  and no selection; the entry is the one of the day, and the commands
  of the backend take the date where the later revision gives a
  filename.  Of [State] this revision has [content],
  [journalDirectory] and [saveStatus]; the fields of the later
  revision stay as [init] sets them, and the entry of a [Closure] is
  not used. *)
Module SingleDay.

(** [loadEntry] of the effect on [journalDirectory, today]. *)
Definition loadEntry (r : Closure) (s : State) : State :=
  match c_directory r with
  | Some (c :: d) => invoke (load_journal (today s) (c :: d)) after_load s
  | _ => s
  end.

(** [loadEntry] after [await invoke]: the buffer is set only when the
    entry is neither [null] nor empty. *)
Definition loadEntry_settled (r : Outcome (option jsstring)) (s : State)
    : State :=
  match r with
  | resolved (Some (c :: t)) => setContent (c :: t) s
  | resolved _ => s
  | rejected => console_error "Failed to load journal entry:" s
  end.

Definition saveEntry (cl : Closure) (s : State) : State :=
  match c_directory cl with
  | Some (c :: d) =>
      invoke (save_journal (today s) (c_content cl) (c :: d))
        (after_save cl) (setSaveStatus saving s)
  | _ => s
  end.

Definition saveEntry_settled (ok : bool) (s : State) : State :=
  if ok then setSaveStatus saved s
  else setSaveStatus unsaved
         (console_error "Failed to save journal entry:" s).

(** The debounce effect: it returns at once without a directory and
    when the buffer is empty. *)
Definition debounce_effect (r : Closure) (s : State) : State :=
  match c_directory r, c_content r with
  | Some (_ :: _), _ :: _ =>
      let s1 := setSaveStatus unsaved s in
      set_cleanup (Some (next_id s1)) (setTimeout r 1000 s1)
  | _, _ => s
  end.

(** The effects after a render: [loadEntry] depends on the directory,
    the debounce effect on the buffer, the directory and [saveEntry],
    which changes with the directory and the buffer. *)
Definition effects (prev cur : Closure) (s : State) : State :=
  let dir := negb (same_directory (c_directory prev) (c_directory cur)) in
  let txt := dir || negb (str_eqb (c_content prev) (c_content cur)) in
  let s0 := if txt then debounce_cleanup s else s in
  let s1 := if dir then loadEntry cur s0 else s0 in
  if txt then debounce_effect cur s1 else s1.

Definition elapse (ms : nat) (s : State) : State :=
  let t := now s + ms in
  let (due, rest) := partition (fun tm => deadline tm <=? t) (timers s) in
  fold_left (fun acc tm => saveEntry (callback tm) acc) due
    (set_timers rest (set_now t s)).

(** The events this revision has; the others change nothing. *)
Definition handle (e : Event) (s : State) : State :=
  match e with
  | SettingsLoaded dir => chooseDirectory dir s
  | DirectorySelected selected => chooseDirectory selected s
  | Edit text => setContent text s
  | Elapse ms => elapse ms s
  | LoadSettled id r =>
      match awaiting id s with
      | Some after_load => loadEntry_settled r (forget id s)
      | _ => s
      end
  | SaveSettled id ok =>
      match awaiting id s with
      | Some (after_save _) => saveEntry_settled ok (forget id s)
      | _ => s
      end
  | _ => s
  end.

(** No effect sets a state that another effect depends on: one pass. *)
Definition step (s : State) (e : Event) : State :=
  effects (render s) (render (handle e s)) (handle e s).

Definition run (s : State) (evs : list Event) : State :=
  fold_left step evs s.

(** Every timer and every save holds a text that is not empty. *)
Definition texts_inv (s : State) : Prop :=
  Forall (fun t => c_content (callback t) <> []) (timers s)
  /\ Forall (fun c => match c with
                      | save_journal _ text _ => text <> []
                      | _ => True
                      end) (calls s).

End SingleDay.

(** ** The revision with dated entries

  The [App] of [part_000] that starts at line 584: the entries are
  dates, one of them is selected, and the commands of the backend take
  the date.  [base] holds the buffer, the directory, the status, the
  clock and the log as before; this revision has its own closures,
  timers and promises, since its [saveEntry] closes over the selected
  date and over the array of entries. *)
Module Dated.

(** What [saveEntry] of one render closes over.  React compares the
    array [entries] by identity: [c_entries_id] changes with every
    [setEntries]. *)
Record Closure := {
  c_directory : option jsstring;
  c_date : jsstring;
  c_content : jsstring;
  c_entries : list jsstring;
  c_entries_id : nat
}.

Record Timer := { timer_id : nat; deadline : nat; callback : Closure }.

Inductive Continuation :=
| after_load | after_save (cl : Closure) | after_list.

Record Promise := { promise_id : nat; cont : Continuation }.

Record View := {
  base : State;
  selectedDate : jsstring;
  entries : list jsstring;
  entries_id : nat;
  showSidebar : bool;
  timers : list Timer;
  cleanup : option nat;
  pending : list Promise
}.

Definition with_base (f : State -> State) (v : View) : View :=
  {| base := f (base v); selectedDate := selectedDate v;
     entries := entries v; entries_id := entries_id v;
     showSidebar := showSidebar v; timers := timers v;
     cleanup := cleanup v; pending := pending v |}.

Definition setSelectedDate (d : jsstring) (v : View) : View :=
  {| base := base v; selectedDate := d; entries := entries v;
     entries_id := entries_id v; showSidebar := showSidebar v;
     timers := timers v; cleanup := cleanup v; pending := pending v |}.

(** [setEntries] with the array that arrived, a new one. *)
Definition setEntries (l : list jsstring) (v : View) : View :=
  {| base := base v; selectedDate := selectedDate v; entries := l;
     entries_id := S (entries_id v); showSidebar := showSidebar v;
     timers := timers v; cleanup := cleanup v; pending := pending v |}.

Definition setShowSidebar (b : bool) (v : View) : View :=
  {| base := base v; selectedDate := selectedDate v;
     entries := entries v; entries_id := entries_id v; showSidebar := b;
     timers := timers v; cleanup := cleanup v; pending := pending v |}.

Definition set_timers (l : list Timer) (v : View) : View :=
  {| base := base v; selectedDate := selectedDate v;
     entries := entries v; entries_id := entries_id v;
     showSidebar := showSidebar v; timers := l; cleanup := cleanup v;
     pending := pending v |}.

Definition set_cleanup (c : option nat) (v : View) : View :=
  {| base := base v; selectedDate := selectedDate v;
     entries := entries v; entries_id := entries_id v;
     showSidebar := showSidebar v; timers := timers v; cleanup := c;
     pending := pending v |}.

Definition set_pending (l : list Promise) (v : View) : View :=
  {| base := base v; selectedDate := selectedDate v;
     entries := entries v; entries_id := entries_id v;
     showSidebar := showSidebar v; timers := timers v;
     cleanup := cleanup v; pending := l |}.

(** The first render on the date [d]: that date is selected. *)
Definition init (d : jsstring) : View :=
  {| base := init d; selectedDate := d; entries := [];
     entries_id := 0; showSidebar := false; timers := []; cleanup := None;
     pending := [] |}.

Definition render (v : View) : Closure :=
  {| c_directory := journalDirectory (base v);
     c_date := selectedDate v;
     c_content := content (base v);
     c_entries := entries v;
     c_entries_id := entries_id v |}.

Definition invoke (c : Call) (k : Continuation) (v : View) : View :=
  set_pending
    (pending v ++ [{| promise_id := next_id (base v); cont := k |}])
    (with_base
       (fun b => set_next_id (S (next_id b)) (set_calls (c :: calls b) b))
       v).

Definition loadEntries (directory : option jsstring) (v : View) : View :=
  match directory with
  | Some (c :: d) => invoke (list_journal_entries (c :: d)) after_list v
  | _ => v
  end.

Definition loadEntries_settled (r : Outcome (list jsstring)) (v : View)
    : View :=
  match r with
  | resolved entryList => setEntries entryList v
  | rejected =>
      with_base (console_error "Failed to load entries list:") v
  end.

(** [loadEntry] of the effect on [journalDirectory, selectedDate]. *)
Definition loadEntry (r : Closure) (v : View) : View :=
  match c_directory r with
  | Some (c :: d) => invoke (load_journal (c_date r) (c :: d)) after_load v
  | _ => v
  end.

Definition loadEntry_settled (r : Outcome (option jsstring)) (v : View)
    : View :=
  match r with
  | resolved entry =>
      with_base
        (fun b =>
           setSaveStatus saved
             (setContent (match entry with Some t => t | None => [] end) b))
        v
  | rejected =>
      with_base (console_error "Failed to load journal entry:") v
  end.

Definition saveEntry (cl : Closure) (v : View) : View :=
  match c_directory cl with
  | Some (c :: d) =>
      invoke (save_journal (c_date cl) (c_content cl) (c :: d))
        (after_save cl) (with_base (setSaveStatus saving) v)
  | _ => v
  end.

(** [entries.includes(selectedDate)] *)
Definition includes (l : list jsstring) (d : jsstring) : bool :=
  existsb (str_eqb d) l.

(** [saveEntry] after [await invoke]: the list is asked for again when
    the date is not in the entries the closure holds and the text is
    not blank. *)
Definition saveEntry_settled (cl : Closure) (ok : bool) (v : View) : View :=
  if ok then
    let v1 := with_base (setSaveStatus saved) v in
    if negb (includes (c_entries cl) (c_date cl))
       && negb (is_empty (trim (c_content cl)))
    then loadEntries (c_directory cl) v1
    else v1
  else with_base
         (fun b => setSaveStatus unsaved
                     (console_error "Failed to save journal entry:" b)) v.

Definition clearTimeout (id : nat) (v : View) : View :=
  set_timers (filter (fun t => negb (timer_id t =? id)) (timers v)) v.

Definition setTimeout (cb : Closure) (ms : nat) (v : View) : View :=
  with_base (fun b => set_next_id (S (next_id b)) b)
    (set_timers
       (timers v ++ [{| timer_id := next_id (base v);
                        deadline := now (base v) + ms;
                        callback := cb |}]) v).

Definition debounce_cleanup (v : View) : View :=
  match cleanup v with
  | Some id => set_cleanup None (clearTimeout id v)
  | None => v
  end.

Definition debounce_effect (r : Closure) (v : View) : View :=
  match c_directory r with
  | Some (_ :: _) =>
      let v1 := with_base (setSaveStatus unsaved) v in
      set_cleanup (Some (next_id (base v1))) (setTimeout r 1000 v1)
  | _ => v
  end.

(** The effects after a render.  [loadEntries] changes with the
    directory; [saveEntry] changes with the directory, the selected
    date, the buffer and the array of entries, and the debounce effect
    depends on it. *)
Definition effects (prev cur : Closure) (v : View) : View :=
  let dir := negb (same_directory (c_directory prev) (c_directory cur)) in
  let sel := dir || negb (str_eqb (c_date prev) (c_date cur)) in
  let sav := sel || negb (str_eqb (c_content prev) (c_content cur))
             || negb (c_entries_id prev =? c_entries_id cur) in
  let v0 := if sav then debounce_cleanup v else v in
  let v1 := if dir then loadEntries (c_directory cur) v0 else v0 in
  let v2 := if sel then loadEntry cur v1 else v1 in
  if sav then debounce_effect cur v2 else v2.

Inductive Event :=
| SettingsLoaded (dir : option jsstring)
| DirectorySelected (selected : option jsstring)
| Edit (text : jsstring)
  (* [handleSelectEntry] on the [i]-th of [entries] *)
| SelectEntry (i : nat)
| GoToToday
| Elapse (ms : nat)
| LoadSettled (id : nat) (r : Outcome (option jsstring))
| SaveSettled (id : nat) (ok : bool)
| ListSettled (id : nat) (r : Outcome (list jsstring)).

Definition awaiting (id : nat) (v : View) : option Continuation :=
  option_map cont (find (fun p => promise_id p =? id) (pending v)).

Definition forget (id : nat) (v : View) : View :=
  set_pending (filter (fun q => negb (promise_id q =? id)) (pending v)) v.

Definition elapse (ms : nat) (v : View) : View :=
  let t := now (base v) + ms in
  let (due, rest) := partition (fun tm => deadline tm <=? t) (timers v) in
  fold_left (fun acc tm => saveEntry (callback tm) acc) due
    (set_timers rest (with_base (set_now t) v)).

Definition handle (e : Event) (v : View) : View :=
  match e with
  | SettingsLoaded dir => with_base (chooseDirectory dir) v
  | DirectorySelected selected => with_base (chooseDirectory selected) v
  | Edit text => with_base (setContent text) v
  | SelectEntry i =>
      match nth_error (entries v) i with
      | Some date => setShowSidebar false (setSelectedDate date v)
      | None => v
      end
  | GoToToday => setSelectedDate (today (base v)) v
  | Elapse ms => elapse ms v
  | LoadSettled id r =>
      match awaiting id v with
      | Some after_load => loadEntry_settled r (forget id v)
      | _ => v
      end
  | SaveSettled id ok =>
      match awaiting id v with
      | Some (after_save cl) => saveEntry_settled cl ok (forget id v)
      | _ => v
      end
  | ListSettled id r =>
      match awaiting id v with
      | Some after_list => loadEntries_settled r (forget id v)
      | _ => v
      end
  end.

(** No effect sets a state that another effect depends on: one pass. *)
Definition step (v : View) (e : Event) : View :=
  effects (render v) (render (handle e v)) (handle e v).

Definition run (v : View) (evs : list Event) : View :=
  fold_left step evs v.

End Dated.

(** The revision with dated entries, opened on a directory with no
    entries: the list and the load have settled, and the save armed by the
    first directory has gone through. *)
Definition dated_opened : Dated.View :=
  Dated.run (Dated.init jan20)
    [Dated.SettingsLoaded (Some journal);
     Dated.ListSettled 0 (resolved []);
     Dated.LoadSettled 1 (resolved None);
     Dated.Elapse 1000;
     Dated.SaveSettled 4 true].

(** ** Tactics *)

Ltac break_match :=
  repeat match goal with
         | |- context [match ?x with _ => _ end] => destruct x eqn:?
         end.

Ltac unfold_handlers :=
  unfold chooseDirectory, handleCreateNewEntry, handleSelectEntry,
    handleDeleteEntry, loadEntry_settled, saveEntry_settled,
    loadEntries_settled, handleDeleteEntry_settled, loadEntries,
    handleGoToToday, setCurrentEntry_new, forget, invoke, console_error.

Ltac break_if :=
  repeat match goal with
         | |- context [if ?b then _ else _] => destruct b
         end.

Ltac dated_norm :=
  cbv - [str_eqb Nat.add Nat.leb Nat.eqb same_directory trim is_space
         forallb is_empty Dated.includes Dated.effects].

Ltac state_walk :=
  cbv - [str_eqb Nat.add Nat.leb Nat.eqb same_directory same_entry
         effects commit js Nat.of_num_uint].

Ltac state_norm :=
  cbv - [str_eqb Nat.add Nat.leb same_directory same_entry
         effects commit js Nat.of_num_uint].

(** ** Strings *)

Lemma str_eqb_refl a : str_eqb a a = true.
Proof.
  induction a as [|x a IH]; simpl; [reflexivity|].
  now rewrite N.eqb_refl, IH.
Qed.

Lemma str_eqb_eq a b : str_eqb a b = true <-> a = b.
Proof.
  split; [|intros ->; apply str_eqb_refl].
  revert b; induction a as [|x a IH]; intros [|y b]; simpl; try easy.
  intros H; apply andb_true_iff in H as [Hx Hr].
  apply N.eqb_eq in Hx; apply IH in Hr; now subst.
Qed.

Lemma str_eqb_neq a b : a <> b -> str_eqb a b = false.
Proof.
  intros H; destruct (str_eqb a b) eqn:E; [|reflexivity].
  now apply str_eqb_eq in E.
Qed.

Lemma trimStart_all_space s : forallb is_space s = true -> trimStart s = [].
Proof.
  induction s as [|c s IH]; simpl; [reflexivity|].
  intros H; apply andb_true_iff in H as [Hc Hs]; now rewrite Hc, IH.
Qed.

Lemma trimStart_empty s : trimStart s = [] -> forallb is_space s = true.
Proof.
  induction s as [|c s IH]; simpl; [reflexivity|].
  destruct (is_space c); [intros H; now rewrite IH|discriminate].
Qed.

Lemma trimStart_suffix s : exists run, s = run ++ trimStart s
  /\ forallb is_space run = true.
Proof.
  induction s as [|c s (run & E & Hrun)]; simpl.
  - now exists [].
  - destruct (is_space c) eqn:Hc.
    + exists (c :: run); simpl; rewrite Hc, Hrun; split; [congruence|easy].
    + now exists [].
Qed.

(** A string is blank for [trim] exactly when it holds whitespace only. *)
Lemma trim_empty_iff s : trim s = [] <-> forallb is_space s = true.
Proof.
  unfold trim, trimEnd; split.
  - intros H.
    assert (E : trimStart (rev (trimStart s)) = [])
      by (apply (f_equal (@rev _)) in H; now rewrite rev_involutive in H).
    apply trimStart_empty in E.
    rewrite forallb_forall in E.
    destruct (trimStart_suffix s) as (run & Es & Hrun).
    rewrite Es, forallb_app, Hrun; simpl.
    apply forallb_forall; intros c Hc; apply E, in_rev.
    now rewrite rev_involutive.
  - intros H; now rewrite (trimStart_all_space _ H).
Qed.

Lemma is_empty_true a : is_empty a = true <-> a = [].
Proof. now destruct a. Qed.

Lemma is_empty_false a : is_empty a = false <-> a <> [].
Proof. now destruct a. Qed.

Lemma reserved_not_space c : is_reserved c = true -> is_space c = false.
Proof.
  unfold is_reserved; intros H.
  repeat (apply orb_true_iff in H as [H|H]);
    apply N.eqb_eq in H; subst; reflexivity.
Qed.

Lemma replace_spaces_from_keep c r b :
  is_space c = false ->
  replace_spaces_from b (c :: r) = c :: replace_spaces_from false r.
Proof. intros H; simpl; now rewrite H. Qed.

(** Inside a match, further whitespace adds nothing. *)
Lemma replace_spaces_run run r :
  forallb is_space run = true ->
  replace_spaces_from true (replace_reserved (run ++ r))
  = replace_spaces_from true (replace_reserved r).
Proof.
  induction run as [|c run IH]; simpl; [reflexivity|].
  intros H; apply andb_true_iff in H as [Hc Hr].
  destruct (is_reserved c) eqn:Hres.
  - apply reserved_not_space in Hres; congruence.
  - rewrite Hc; auto.
Qed.

(** Where no whitespace follows, it does not matter whether a match is
    open. *)
Lemma replace_spaces_from_start r b :
  hd_error (map is_space r) <> Some true ->
  replace_spaces_from b (replace_reserved r)
  = replace_spaces_from false (replace_reserved r).
Proof.
  destruct r as [|c r]; simpl; [reflexivity|].
  intros H; destruct (is_reserved c) eqn:Hres.
  - reflexivity.
  - destruct (is_space c); [now elim H|reflexivity].
Qed.

Lemma split_run s :
  exists run rest, s = run ++ rest /\ forallb is_space run = true
    /\ hd_error (map is_space rest) <> Some true
    /\ List.length rest <= List.length s.
Proof.
  induction s as [|c s (run & rest & E & Hrun & Hrest & Hlen)].
  - exists [], []; simpl; repeat split; [discriminate|lia].
  - destruct (is_space c) eqn:Hc.
    + exists (c :: run), rest; simpl; rewrite Hc, Hrun.
      repeat split; [congruence|assumption|lia].
    + exists [], (c :: s); simpl; rewrite Hc.
      repeat split; [discriminate|lia].
Qed.

(** The two [replace] calls do what the specification words. *)
Lemma replace_sanitizes s :
  sanitizes s (replace_spaces (replace_reserved s)).
Proof.
  remember (List.length s) as n eqn:Hn.
  revert s Hn; induction n as [n IH] using lt_wf_ind; intros s ->.
  destruct s as [|c r]; [constructor|].
  unfold replace_spaces; simpl.
  destruct (is_reserved c) eqn:Hres.
  - simpl; apply sanitizes_reserved; [assumption|].
    eapply IH; [|reflexivity]; simpl; lia.
  - destruct (is_space c) eqn:Hc.
    + destruct (split_run r) as (run & rest & -> & Hrun & Hrest & Hlen).
      rewrite replace_spaces_run, replace_spaces_from_start by assumption.
      apply (sanitizes_run (run := c :: run)); simpl;
        [discriminate|now rewrite Hc|assumption|].
      eapply IH; [|reflexivity]; simpl; lia.
    + apply sanitizes_keep; [assumption..|].
      eapply IH; [|reflexivity]; simpl; lia.
Qed.

(** The wording leaves no choice: it fixes the result. *)
Lemma sanitizes_unique a b :
  sanitizes a b -> b = replace_spaces (replace_reserved a).
Proof.
  unfold replace_spaces; induction 1 as [|c r r' Hc _ IH|c r r' Hc Hs _ IH
                                         |run r r' Hne Hrun Hhd _ IH].
  - reflexivity.
  - simpl; rewrite Hc; simpl; now rewrite IH.
  - simpl; rewrite Hc, Hs; now rewrite IH.
  - destruct run as [|c run]; [easy|]; simpl in Hrun.
    apply andb_true_iff in Hrun as [Hc Hrun]; simpl.
    destruct (is_reserved c) eqn:Hres;
      [apply reserved_not_space in Hres; congruence|].
    rewrite Hc, replace_spaces_run, replace_spaces_from_start by assumption.
    now rewrite IH.
Qed.

(** ** Renders that change nothing *)

Lemma same_directory_refl d : same_directory d d = true.
Proof. destruct d; simpl; [apply str_eqb_refl|reflexivity]. Qed.

Lemma same_entry_refl e : same_entry e e = true.
Proof. destruct e; simpl; [apply Nat.eqb_refl|reflexivity]. Qed.

Lemma effects_refl r s : effects r r s = s.
Proof.
  unfold effects.
  now rewrite same_directory_refl, same_entry_refl, str_eqb_refl.
Qed.

(** A handler that leaves the directory, the entry and the buffer as they
    were causes no effect. *)
Lemma commit_idle prev s : render s = prev -> commit prev s = s.
Proof. intros <-; unfold commit; now rewrite !effects_refl. Qed.

Lemma is_empty_trim a : is_empty (trim a) = forallb is_space a.
Proof.
  destruct (forallb is_space a) eqn:E.
  - apply is_empty_true, trim_empty_iff, E.
  - apply is_empty_false; intros H; apply trim_empty_iff in H; congruence.
Qed.

(** ** How the effects follow a change *)

Lemma effects_content prev cur s :
  c_directory prev = c_directory cur -> c_entry prev = c_entry cur ->
  c_content prev <> c_content cur ->
  effects prev cur s = debounce_effect cur (debounce_cleanup s).
Proof.
  intros Hd He Hc; unfold effects.
  now rewrite Hd, He, same_directory_refl, same_entry_refl, (str_eqb_neq Hc).
Qed.

Lemma effects_entry prev cur s :
  c_directory prev = c_directory cur ->
  same_entry (c_entry prev) (c_entry cur) = false ->
  effects prev cur s
  = debounce_effect cur
      (loadEntry cur (default_entry_effect cur (debounce_cleanup s))).
Proof.
  intros Hd He; unfold effects.
  now rewrite Hd, He, same_directory_refl.
Qed.

Lemma effects_directory prev cur s :
  same_directory (c_directory prev) (c_directory cur) = false ->
  effects prev cur s
  = debounce_effect cur
      (loadEntry cur
         (default_entry_effect cur
            (loadEntries (c_directory cur) false (debounce_cleanup s)))).
Proof. intros Hd; unfold effects; now rewrite Hd. Qed.

(** When the effects leave directory, entry and buffer alone, the second
    render runs no effect. *)
Lemma commit_one_pass prev s :
  render (effects prev (render s) s) = render s ->
  commit prev s = effects prev (render s) s.
Proof. intros H; unfold commit; now rewrite H, effects_refl. Qed.

(** In a well-formed state the cleanup leaves no timer armed. *)
Lemma cleanup_clears s :
  timers_wf s = true ->
  debounce_cleanup s = set_cleanup None (set_timers [] s).
Proof.
  unfold timers_wf, debounce_cleanup, clearTimeout.
  destruct s as [td ct jd st sh nt en ce nw tm cu pe ni ca co di]; simpl.
  destruct tm as [|t [|t' tm]]; [|destruct cu as [id|]|]; try discriminate.
  - destruct cu; reflexivity.
  - intros H; simpl; now rewrite H.
Qed.

Lemma render_debounce_cleanup s : render (debounce_cleanup s) = render s.
Proof. unfold debounce_cleanup; now destruct (cleanup s). Qed.

Lemma render_debounce_effect r s : render (debounce_effect r s) = render s.
Proof.
  unfold debounce_effect.
  now destruct (c_directory r) as [[|c d]|], (c_entry r).
Qed.

(** ** Filenames of titled entries *)

(** C9, as amended: the entry that [handleCreateNewEntry] opens for a title
    that is not blank is named after the title with its leading and
    trailing whitespace removed, in which each reserved character is
    replaced by a hyphen and each run of whitespace by one space, followed
    by [.md]; the title [My: Trip/Notes?] gives [My- Trip-Notes-.md]. *)
Theorem created_entry_filename s :
  is_empty (trim (newEntryTitle s)) = false ->
  exists out e,
    currentEntry (handleCreateNewEntry s) = Some e
    /\ entry_type (obj e) = titled
    /\ title (obj e) = out
    /\ filename (obj e) = out ++ js ".md"
    /\ sanitizes (trim (newEntryTitle s)) out
    /\ (newEntryTitle s = js "My: Trip/Notes?" ->
        filename (obj e) = js "My- Trip-Notes-.md").
Proof.
  intros H; unfold handleCreateNewEntry; rewrite H; simpl.
  eexists; eexists; split; [reflexivity|]; simpl.
  repeat split.
  - apply replace_sanitizes.
  - intros ->; reflexivity.
Qed.

Lemma created_entry_filename_witness :
  exists e,
    currentEntry (handleCreateNewEntry
                    (setNewEntryTitle (js "My: Trip/Notes?") opened)) = Some e
    /\ filename (obj e) = js "My- Trip-Notes-.md".
Proof.
  destruct (@created_entry_filename
              (setNewEntryTitle (js "My: Trip/Notes?") opened))
    as (out & e & He & _ & _ & _ & _ & Hgold); [reflexivity|].
  exists e; split; [exact He|apply Hgold; reflexivity].
Defined.

(** C9, as worded, fails on a title with whitespace at an end: the code
    trims the title first, the wording does not. *)
Lemma title_is_trimmed_first :
  titled_filename (js " a") = js "a.md"
  /\ spec_filename (js " a") = js " a.md"
  /\ ~ sanitizes (js " a") (sanitizedTitle (js " a")).
Proof.
  split; [reflexivity|split; [reflexivity|]].
  intros H; vm_compute in H; inversion H.
Qed.

(** ** Settled saves and loads *)

Lemma find_append A (f : A -> bool) l1 l2 :
  find f (l1 ++ l2)
  = match find f l1 with Some x => Some x | None => find f l2 end.
Proof.
  induction l1 as [|x l1 IH]; simpl; [reflexivity|].
  now destruct (f x).
Qed.

(** What [saveEntry] sends is the buffer of the render it closes over, and
    the same closure waits for the answer. *)
Lemma saveEntry_issues cl s d e :
  c_directory cl = Some d -> d <> [] -> c_entry cl = Some e ->
  calls (saveEntry cl s)
  = save_journal (filename (obj e)) (c_content cl) d :: calls s
  /\ awaiting (next_id s) (saveEntry cl s)
     = match awaiting (next_id s) s with
       | Some k => Some k
       | None => Some (after_save cl)
       end
  /\ saveStatus (saveEntry cl s) = saving.
Proof.
  intros Hd Hne He; unfold saveEntry; rewrite Hd, He.
  destruct d as [|c d]; [easy|]; simpl; repeat split.
  unfold awaiting; simpl; rewrite find_append.
  destruct (find _ (pending s)); simpl; [reflexivity|].
  now rewrite Nat.eqb_refl.
Qed.

(** C7: when a save fails, the status becomes [unsaved] and the buffer,
    the open entry and the timers stay as they are; the failure goes to
    the console and nowhere else: no dialog is shown, no backend call is
    made. *)
Theorem save_failure_keeps_buffer s id cl :
  awaiting id s = Some (after_save cl) ->
  let s' := step s (SaveSettled id false) in
  saveStatus s' = unsaved
  /\ content s' = content s
  /\ currentEntry s' = currentEntry s
  /\ timers s' = timers s
  /\ console s' = "Failed to save journal entry:"%string :: console s
  /\ dialogs s' = dialogs s
  /\ calls s' = calls s.
Proof.
  intros H s'; subst s'; unfold step; simpl handle; rewrite H.
  rewrite commit_idle by reflexivity; simpl; repeat split.
Qed.

Lemma save_failure_keeps_buffer_witness :
  let s := run opened [Edit (js "Hello"); Elapse 1000] in
  let s' := step s (SaveSettled 6 false) in
  saveStatus s' = unsaved /\ content s' = js "Hello".
Proof.
  intros s s'.
  destruct (@save_failure_keeps_buffer s 6
              {| c_directory := journalDirectory s;
                 c_entry := currentEntry s;
                 c_content := js "Hello" |})
    as (H1 & H2 & _); [reflexivity|].
  split; [exact H1|exact H2].
Defined.

(** C5, as amended: a load that fails is swallowed; it goes to the
    console, and the buffer, the status, the timers and the calls stay as
    they are. *)
Theorem load_failure_keeps_buffer s id :
  awaiting id s = Some after_load ->
  let s' := step s (LoadSettled id rejected) in
  content s' = content s
  /\ saveStatus s' = saveStatus s
  /\ currentEntry s' = currentEntry s
  /\ timers s' = timers s
  /\ console s' = "Failed to load journal entry:"%string :: console s
  /\ dialogs s' = dialogs s
  /\ calls s' = calls s.
Proof.
  intros H s'; subst s'; unfold step; simpl handle; rewrite H.
  rewrite commit_idle by reflexivity; simpl; repeat split.
Qed.

Lemma load_failure_keeps_buffer_witness :
  let s := run opened [Edit (js "draft"); SelectEntry 0] in
  content (step s (LoadSettled 6 rejected)) = content s.
Proof.
  intros s.
  destruct (@load_failure_keeps_buffer s 6) as (H & _); [reflexivity|].
  exact H.
Defined.

(** C5, as worded, fails: the load of [Trip.md] fails while the buffer
    holds the text typed into the entry of the day, and the buffer keeps
    that text. *)
Lemma failed_load_leaves_text :
  let s := run opened [Edit (js "draft"); SelectEntry 0] in
  awaiting 6 s = Some after_load
  /\ hd_error (calls s) = Some (load_journal (js "Trip.md") journal)
  /\ content (step s (LoadSettled 6 rejected)) = js "draft".
Proof. vm_compute; repeat split. Qed.

(** C6, as amended: when a save succeeds, the status becomes [saved], and
    the list of entries is asked for again exactly when the text that was
    saved holds a character that is not whitespace. *)
Theorem save_success_refreshes_unless_blank s id cl d :
  awaiting id s = Some (after_save cl) ->
  c_directory cl = Some d -> d <> [] ->
  let s' := step s (SaveSettled id true) in
  saveStatus s' = saved
  /\ content s' = content s
  /\ calls s' = if forallb is_space (c_content cl) then calls s
                else list_journal_entries d :: calls s.
Proof.
  intros H Hd Hne s'; subst s'; unfold step; simpl handle; rewrite H.
  unfold saveEntry_settled; rewrite is_empty_trim, Hd.
  destruct d as [|c d]; [easy|].
  destruct (forallb is_space (c_content cl)); simpl;
    rewrite commit_idle by reflexivity; simpl; repeat split.
Qed.

Lemma save_success_refreshes_unless_blank_witness :
  let s := run opened [Edit (js "Hello"); Elapse 1000] in
  let s' := step s (SaveSettled 6 true) in
  saveStatus s' = saved
  /\ calls s' = list_journal_entries journal :: calls s.
Proof.
  intros s s'.
  destruct (@save_success_refreshes_unless_blank s 6
              {| c_directory := journalDirectory s;
                 c_entry := currentEntry s;
                 c_content := js "Hello" |} journal)
    as (H1 & _ & H3); [reflexivity|reflexivity|discriminate|].
  split; [exact H1|exact H3].
Defined.

(** C6, as worded, fails: a buffer that holds one space is not empty, its
    save succeeds, and the list of entries is not asked for. *)
Lemma blank_save_refreshes_nothing :
  let s := run opened [Edit (js " "); Elapse 1000] in
  let s' := step s (SaveSettled 6 true) in
  hd_error (calls s) = Some (save_journal (js "2026-01-20.md") (js " ") journal)
  /\ content s' <> []
  /\ saveStatus s' = saved
  /\ calls s' = calls s.
Proof. vm_compute; repeat split; discriminate. Qed.

(** ** Timers *)

Lemma timers_wf_frame s s' :
  timers s' = timers s -> cleanup s' = cleanup s ->
  timers_wf s' = timers_wf s.
Proof. unfold timers_wf; now intros -> ->. Qed.

Lemma render_saveEntry cl s : render (saveEntry cl s) = render s.
Proof.
  unfold saveEntry.
  now destruct (c_directory cl) as [[|c d]|], (c_entry cl).
Qed.

Lemma render_fire due s :
  render (fold_left (fun acc tm => saveEntry (callback tm) acc) due s)
  = render s.
Proof.
  revert s; induction due as [|t due IH]; intros s; simpl; [reflexivity|].
  now rewrite IH, render_saveEntry.
Qed.

Lemma step_elapse s ms : step s (Elapse ms) = elapse ms s.
Proof.
  unfold step; simpl handle; apply commit_idle.
  unfold elapse; destruct (partition _ _) as [due rest].
  now rewrite render_fire.
Qed.

Lemma elapse_early s t ms :
  timers s = [t] -> now s + ms < deadline t ->
  elapse ms s = set_now (now s + ms) s.
Proof.
  intros Ht Hlt; unfold elapse; rewrite Ht; simpl.
  destruct (Nat.leb_spec (deadline t) (now s + ms)); [lia|]; simpl.
  destruct s; simpl in *; now subst.
Qed.

Lemma elapse_due s t ms :
  timers s = [t] -> deadline t <= now s + ms ->
  elapse ms s
  = saveEntry (callback t) (set_timers [] (set_now (now s + ms) s)).
Proof.
  intros Ht Hle; unfold elapse; rewrite Ht; simpl.
  now destruct (Nat.leb_spec (deadline t) (now s + ms)); [|lia].
Qed.

(** The renders after a handler that opened another entry. *)
Lemma commit_switch prev s d e :
  timers_wf s = true -> journalDirectory s = Some d -> d <> [] ->
  currentEntry s = Some e -> c_directory prev = Some d ->
  same_entry (c_entry prev) (Some e) = false ->
  commit prev s
  = set_cleanup (Some (S (next_id s)))
      (setTimeout (render s) 1000
         (setSaveStatus unsaved
            (invoke (load_journal (filename (obj e)) d) after_load
               (set_cleanup None (set_timers [] s))))).
Proof.
  intros Hwf Hd Hne He Hpd Hpe.
  assert (E : effects prev (render s) s
    = set_cleanup (Some (S (next_id s)))
      (setTimeout (render s) 1000
         (setSaveStatus unsaved
            (invoke (load_journal (filename (obj e)) d) after_load
               (set_cleanup None (set_timers [] s)))))).
  { rewrite effects_entry by (simpl; congruence).
    rewrite cleanup_clears by exact Hwf.
    unfold default_entry_effect, loadEntry, debounce_effect, render; simpl.
    rewrite Hd, He; destruct d as [|c d]; [easy|]; reflexivity. }
  rewrite commit_one_pass; rewrite E; reflexivity.
Qed.

(** ** Edits *)

(** An edit that changes the buffer of an open entry. *)
Lemma edit_step s d e text :
  timers_wf s = true -> journalDirectory s = Some d -> d <> [] ->
  currentEntry s = Some e -> text <> content s ->
  step s (Edit text)
  = set_cleanup (Some (next_id s))
      (setTimeout
         {| c_directory := Some d; c_entry := Some e; c_content := text |}
         1000
         (setSaveStatus unsaved
            (set_cleanup None (set_timers [] (setContent text s))))).
Proof.
  intros Hwf Hd Hne He Ht; unfold step; simpl handle.
  assert (E : effects (render s) (render (setContent text s))
                (setContent text s)
    = set_cleanup (Some (next_id s))
        (setTimeout
           {| c_directory := Some d; c_entry := Some e; c_content := text |}
           1000
           (setSaveStatus unsaved
              (set_cleanup None (set_timers [] (setContent text s)))))).
  { rewrite effects_content; simpl; auto.
    rewrite cleanup_clears by exact Hwf.
    unfold debounce_effect, render; simpl.
    rewrite Hd, He; destruct d; [easy|]; reflexivity. }
  rewrite commit_one_pass; rewrite E; reflexivity.
Qed.

Lemma run_app s a b : run s (a ++ b) = run (run s a) b.
Proof. apply fold_left_app. Qed.

Lemma last_cons_default A (x : A) l d d' :
  last (x :: l) d = last (x :: l) d'.
Proof.
  revert x; induction l as [|y l IH]; intros x; [reflexivity|].
  change (last (y :: l) d = last (y :: l) d'); apply IH.
Qed.

Lemma last_cons A (x : A) l d : last (x :: l) d = last l x.
Proof.
  destruct l as [|y l]; [reflexivity|].
  change (last (y :: l) d = last (y :: l) x); apply last_cons_default.
Qed.

Lemma mutations_app c a x :
  mutations c (a ++ [x]) <-> mutations c a /\ x <> last a c.
Proof.
  revert c; induction a as [|t a IH]; intros c.
  - simpl; tauto.
  - rewrite last_cons; simpl; rewrite IH; tauto.
Qed.

(** Edits less than 1000 ms apart: no call goes out, and the entry stays
    open with the last text in the buffer. *)
Lemma burst_keeps_quiet d e edits : forall s,
  timers_wf s = true -> journalDirectory s = Some d -> d <> [] ->
  currentEntry s = Some e ->
  mutations (content s) (map fst edits) ->
  Forall (fun p => snd p < 1000) edits ->
  let s' := run s (burst edits) in
  timers_wf s' = true /\ journalDirectory s' = Some d
  /\ currentEntry s' = Some e /\ calls s' = calls s
  /\ content s' = last (map fst edits) (content s).
Proof.
  induction edits as [|[t gap] edits IH]; intros s Hwf Hd Hne He Hm Hg.
  - simpl; auto.
  - simpl in Hm; destruct Hm as [Ht Hm].
    apply Forall_cons_iff in Hg as [Hgap Hg]; simpl in Hgap.
    change (burst ((t, gap) :: edits))
      with ([Edit t; Elapse gap] ++ burst edits).
    intros s'; subst s'; rewrite run_app.
    change (run s [Edit t; Elapse gap])
      with (step (step s (Edit t)) (Elapse gap)).
    rewrite (@edit_step s d e) by assumption.
    rewrite step_elapse.
    erewrite elapse_early; [|reflexivity|simpl; lia].
    match goal with |- context [run ?x _] => set (s2 := x) end.
    destruct (IH s2) as (H1 & H2 & H3 & H4 & H5); try assumption.
    + unfold s2, timers_wf; simpl; apply Nat.eqb_refl.
    + split; [exact H1|split; [exact H2|split; [exact H3|split]]].
      * rewrite H4; reflexivity.
      * rewrite H5; simpl map; now rewrite last_cons.
Qed.

(** C1: an edit that changes the buffer of an open entry sets the status
    to [unsaved] and leaves exactly one timer armed, a new one of 1000 ms
    that closes over the new text; and after edits less than 1000 ms apart
    exactly one save goes out, when 1000 ms have passed since the last of
    them, with the last text. *)
Theorem edits_are_debounced s d e :
  timers_wf s = true -> journalDirectory s = Some d -> d <> [] ->
  currentEntry s = Some e ->
  (forall text, text <> content s ->
     let s1 := step s (Edit text) in
     saveStatus s1 = unsaved
     /\ content s1 = text
     /\ timers s1
        = [{| timer_id := next_id s; delay := 1000;
              deadline := now s + 1000;
              callback := {| c_directory := Some d; c_entry := Some e;
                             c_content := text |} |}]
     /\ calls s1 = calls s)
  /\ (forall edits text wait,
        mutations (content s) (map fst edits ++ [text]) ->
        Forall (fun p => snd p < 1000) edits -> 1000 <= wait ->
        let s' := run s (burst edits ++ [Edit text; Elapse wait]) in
        calls s' = save_journal (filename (obj e)) text d :: calls s
        /\ content s' = text /\ saveStatus s' = saving /\ timers s' = []).
Proof.
  intros Hwf Hd Hne He; split.
  - intros text Ht s1; subst s1.
    rewrite (@edit_step s d e) by assumption.
    simpl; destruct (cleanup s); repeat split.
  - intros edits text wait Hm Hg Hw s'; subst s'.
    apply mutations_app in Hm as [Hm Hlast].
    destruct (@burst_keeps_quiet d e edits s) as (H1 & H2 & H3 & H4 & H5);
      try assumption.
    rewrite run_app; set (s0 := run s (burst edits)) in *.
    rewrite <- H5 in Hlast.
    change (run s0 [Edit text; Elapse wait])
      with (step (step s0 (Edit text)) (Elapse wait)).
    rewrite (@edit_step s0 d e) by assumption.
    rewrite step_elapse.
    erewrite elapse_due; [|reflexivity|simpl; lia].
    unfold saveEntry; simpl; destruct d as [|c d]; [easy|]; simpl.
    rewrite H4; repeat split.
Qed.

Lemma edits_are_debounced_witness :
  let s' := run opened
              (burst [(js "H", 120); (js "He", 300)]
               ++ [Edit (js "Hey"); Elapse 1000]) in
  calls s' = save_journal (js "2026-01-20.md") (js "Hey") journal
             :: calls opened.
Proof.
  intros s'.
  destruct (@edits_are_debounced opened journal
              {| oid := 1;
                 obj := {| filename := js "2026-01-20.md";
                           entry_type := daily; title := jan20;
                           date := Some jan20 |} |})
    as [_ H]; [reflexivity|reflexivity|discriminate|reflexivity|].
  destruct (H [(js "H", 120); (js "He", 300)] (js "Hey") 1000) as [Hc _].
  - vm_compute; repeat split; discriminate.
  - repeat constructor; simpl; lia.
  - lia.
  - exact Hc.
Defined.

(** ** Loads *)

Lemma content_debounce_cleanup s :
  content (debounce_cleanup s) = content s.
Proof. unfold debounce_cleanup; now destruct (cleanup s). Qed.

(** A load that finds no file empties the buffer.  The status it sets
    stays when the buffer was empty already; when the buffer held text,
    the debounce effect runs for the change and sets [unsaved]. *)
Lemma load_absent_status s id d e :
  awaiting id s = Some after_load ->
  journalDirectory s = Some d -> d <> [] -> currentEntry s = Some e ->
  let s' := step s (LoadSettled id (resolved None)) in
  content s' = []
  /\ saveStatus s' = if is_empty (content s) then saved else unsaved.
Proof.
  intros H Hd Hne He s'; subst s'; unfold step; simpl handle; rewrite H.
  unfold loadEntry_settled.
  destruct (content s) as [|c t] eqn:Hc; simpl is_empty.
  - rewrite commit_idle; [simpl; auto|].
    unfold render; simpl; now rewrite Hc.
  - rewrite commit_one_pass; rewrite effects_content;
      try (simpl; congruence).
    + unfold debounce_effect, render; simpl; rewrite Hd, He.
      destruct d as [|c' d]; [easy|]; simpl.
      now rewrite content_debounce_cleanup.
    + now rewrite render_debounce_effect, render_debounce_cleanup.
Qed.

(** C4, at the input where the code departs from it: with the text of
    [Trip.md] in the buffer the user asks for the entry of the day, which
    has no file; the load answers [null], and the state that results has
    an empty buffer and the status [unsaved]. *)
Theorem load_absent_after_text_is_unsaved :
  let s := run opened
             [SelectEntry 0;
              LoadSettled 5 (resolved (Some (js "Packing list")));
              GoToToday] in
  let s' := step s (LoadSettled 9 (resolved None)) in
  awaiting 9 s = Some after_load
  /\ hd_error (calls s) = Some (load_journal (js "2026-01-20.md") journal)
  /\ content s = js "Packing list"
  /\ content s' = []
  /\ saveStatus s' = unsaved.
Proof. vm_compute; repeat split. Qed.

(** ** Switching entries *)

(** C2, at the input where the code departs from it: the user types into
    the entry of the day and, before the timer fires, selects [Trip.md],
    whose load fails.  The timer of the edit is gone, but the switch armed
    a new one that closes over the new entry and the buffer as it was, and
    when it fires the text typed for the day is saved as [Trip.md].  The
    same happens when the load has not settled after 1000 ms. *)
Theorem switch_saves_old_text_under_new_name :
  let s := run opened [Edit (js "draft"); Elapse 500; SelectEntry 0] in
  map timer_id (timers (run opened [Edit (js "draft"); Elapse 500])) = [5]
  /\ map timer_id (timers s) = [7]
  /\ option_map (fun e => filename (obj e)) (currentEntry s)
     = Some (js "Trip.md")
  /\ content s = js "draft"
  /\ awaiting 6 s = Some after_load
  /\ calls (run s [LoadSettled 6 rejected; Elapse 1000])
     = save_journal (js "Trip.md") (js "draft") journal :: calls s
  /\ calls (run s [Elapse 1000])
     = save_journal (js "Trip.md") (js "draft") journal :: calls s.
Proof. vm_compute; repeat split. Qed.

(** An object made now is none of the objects made before. *)
Lemma fresh_entry_differs s e :
  objects_fresh s = true ->
  same_entry (currentEntry s) (Some {| oid := next_id s; obj := e |}) = false.
Proof.
  unfold objects_fresh; intros H; apply andb_true_iff in H as [H _].
  destruct (currentEntry s) as [c|]; simpl; [|reflexivity].
  apply Nat.ltb_lt in H; apply Nat.eqb_neq; lia.
Qed.

(** ** New entries *)

(** C3, as amended: creating a titled entry empties the buffer and at
    that moment sends a load of the new file and no save; the change of
    entry arms the 1000 ms timer over the empty buffer, and when the timer
    fires, without any edit, the empty buffer is saved under the new
    name. *)
Theorem create_arms_save_of_empty_buffer s d :
  timers_wf s = true -> objects_fresh s = true ->
  journalDirectory s = Some d -> d <> [] ->
  is_empty (trim (newEntryTitle s)) = false ->
  let file := titled_filename (newEntryTitle s) in
  let s1 := step s CreateNewEntry in
  content s1 = []
  /\ option_map (fun e => filename (obj e)) (currentEntry s1) = Some file
  /\ calls s1 = load_journal file d :: calls s
  /\ (exists t, timers s1 = [t] /\ delay t = 1000
                /\ deadline t = now s + 1000
                /\ c_content (callback t) = [])
  /\ calls (step s1 (Elapse 1000)) = save_journal file [] d :: calls s1.
Proof.
  intros Hwf Hfresh Hd Hne Htitle file s1; subst file.
  assert (E : s1 = step s CreateNewEntry) by reflexivity; clearbody s1.
  unfold step in E; simpl handle in E.
  unfold handleCreateNewEntry in E; rewrite Htitle in E.
  erewrite commit_switch with (d := d) in E;
    [|rewrite <- Hwf; apply timers_wf_frame; reflexivity
     |exact Hd|exact Hne|reflexivity|exact Hd
     |apply fresh_entry_differs, Hfresh].
  subst s1; rewrite step_elapse.
  erewrite elapse_due; [|reflexivity|simpl; lia].
  unfold saveEntry, render; simpl; rewrite Hd.
  destruct d as [|c d]; [easy|]; simpl.
  repeat split; eexists; repeat split.
Qed.

Lemma create_arms_save_of_empty_buffer_witness :
  let s := run opened [OpenNewEntryModal; TypeTitle (js "Ideas")] in
  let s1 := step s CreateNewEntry in
  calls s1 = load_journal (js "Ideas.md") journal :: calls s
  /\ calls (step s1 (Elapse 1000))
     = save_journal (js "Ideas.md") [] journal :: calls s1.
Proof.
  intros s s1.
  destruct (@create_arms_save_of_empty_buffer s journal)
    as (_ & _ & H1 & _ & H2);
    [reflexivity|reflexivity|reflexivity|discriminate|reflexivity|].
  split; [exact H1|exact H2].
Defined.

(** C3, as worded, fails: the user creates the entry [Ideas], the load
    finds no file, 1000 ms pass, and although no edit was made the save of
    [Ideas.md] goes out. *)
Lemma creation_alone_sends_save :
  let evs := [OpenNewEntryModal; TypeTitle (js "Ideas"); CreateNewEntry;
              LoadSettled 6 (resolved None); Elapse 1000] in
  (forall text, ~ In (Edit text) evs)
  /\ hd_error (calls (run opened evs))
     = Some (save_journal (js "Ideas.md") [] journal)
  /\ ~ In (save_journal (js "Ideas.md") [] journal) (calls opened).
Proof.
  split; [|split].
  - intros text H; simpl in H; intuition discriminate.
  - reflexivity.
  - vm_compute; intuition discriminate.
Qed.

(** ** Promises *)

Lemma find_fresh n l :
  forallb (fun p => promise_id p <? n) l = true ->
  find (fun p => promise_id p =? n) l = None
  /\ filter (fun q => negb (promise_id q =? n)) l = l.
Proof.
  induction l as [|p l IH]; simpl; [auto|].
  intros H; apply andb_true_iff in H as [Hp Hl].
  apply Nat.ltb_lt in Hp.
  destruct (Nat.eqb_spec (promise_id p) n); [lia|]; simpl.
  destruct (IH Hl) as [-> ->]; auto.
Qed.

(** The promise of the call made last is the one with the identity that
    was next. *)
Lemma awaiting_invoke c k s :
  promises_fresh s = true -> awaiting (next_id s) (invoke c k s) = Some k.
Proof.
  intros H; unfold awaiting, invoke; simpl; rewrite find_append.
  destruct (find_fresh _ _ H) as [-> _]; simpl.
  now rewrite Nat.eqb_refl.
Qed.

Lemma forget_invoke c k s :
  promises_fresh s = true ->
  forget (next_id s) (invoke c k s)
  = set_next_id (S (next_id s)) (set_calls (c :: calls s) s).
Proof.
  intros H; unfold forget, invoke; simpl; rewrite filter_app.
  destruct (find_fresh _ _ H) as [_ ->]; simpl.
  rewrite Nat.eqb_refl; simpl; rewrite app_nil_r.
  now destruct s.
Qed.

Lemma promises_fresh_mono s s' :
  pending s' = pending s -> next_id s <= next_id s' ->
  promises_fresh s = true -> promises_fresh s' = true.
Proof.
  unfold promises_fresh; intros -> Hle H.
  rewrite forallb_forall in *; intros p Hp.
  specialize (H p Hp); apply Nat.ltb_lt in H; apply Nat.ltb_lt; lia.
Qed.

Lemma map_obj_allocate n l : map obj (allocate n l) = l.
Proof.
  revert n; induction l as [|e l IH]; intros n; simpl; [reflexivity|].
  now rewrite IH.
Qed.

(** ** Deleting *)

(** C8: deleting while a daily entry is open changes nothing and calls
    nothing.  While a titled entry is open, a declined confirmation calls
    nothing; a confirmed one calls [delete_journal] for the file of the
    entry; when that fails nothing more is called; when it succeeds the
    list of entries is asked for.  However that request settles, the
    entry that is opened next is the daily entry of the current date (its
    filename is the date followed by [.md], its type is [daily], its title
    and its date are the date) and its file is loaded; a list that arrives
    replaces [entries], a request that fails leaves them as they were. *)
Theorem delete_titled_not_daily s d e :
  timers_wf s = true -> objects_fresh s = true -> promises_fresh s = true ->
  journalDirectory s = Some d -> d <> [] -> currentEntry s = Some e ->
  (entry_type (obj e) = daily ->
     forall confirmed, step s (DeleteEntry confirmed) = s)
  /\ (entry_type (obj e) = titled ->
      calls (step s (DeleteEntry false)) = calls s
      /\ let s1 := step s (DeleteEntry true) in
         calls s1 = delete_journal (filename (obj e)) d :: calls s
         /\ currentEntry s1 = Some e
         /\ calls (step s1 (DeleteSettled (next_id s) false)) = calls s1
         /\ let s2 := step s1 (DeleteSettled (next_id s) true) in
            calls s2 = list_journal_entries d :: calls s1
            /\ forall r,
                 let s3 := step s2 (ListSettled (S (next_id s)) r) in
                 match r with
                 | resolved l => map obj (entries s3) = l
                 | rejected => entries s3 = entries s
                 end
                 /\ option_map obj (currentEntry s3)
                    = Some {| filename := today s ++ js ".md";
                              entry_type := daily;
                              title := today s;
                              date := Some (today s) |}
                 /\ calls s3
                    = load_journal (today s ++ js ".md") d :: calls s2).
Proof.
  intros Hwf Hobj Hpro Hd Hne He; split.
  - intros Hty confirmed; unfold step; cbn [handle].
    unfold handleDeleteEntry; rewrite Hd, He, Hty.
    destruct d as [|c d]; [easy|]; now apply commit_idle.
  - intros Hty; cbv zeta.
    assert (Hdel : forall confirmed, step s (DeleteEntry confirmed)
              = handleDeleteEntry confirmed s)
      by (intros confirmed; apply commit_idle; unfold handleDeleteEntry;
          rewrite Hd, He, Hty; destruct d as [|c d]; [easy|];
          now destruct confirmed).
    rewrite !Hdel; unfold handleDeleteEntry; rewrite Hd, He, Hty.
    destruct d as [|c d]; [easy|].
    set (s0 := set_dialogs _ s).
    assert (Hp0 : promises_fresh s0 = true) by exact Hpro.
    change (next_id s) with (next_id s0).
    set (c1 := delete_journal _ _).
    assert (E1 : step (invoke c1 (after_delete (render s)) s0)
                   (DeleteSettled (next_id s0) false)
                 = console_error "Failed to delete entry:"
                     (set_next_id (S (next_id s0))
                        (set_calls (c1 :: calls s0) s0))).
    { unfold step; cbn [handle]; rewrite awaiting_invoke by exact Hp0.
      rewrite forget_invoke by exact Hp0.
      now rewrite commit_idle by reflexivity. }
    set (s1' := set_next_id (S (next_id s0)) (set_calls (c1 :: calls s0) s0)).
    assert (E2 : step (invoke c1 (after_delete (render s)) s0)
                   (DeleteSettled (next_id s0) true)
                 = invoke (list_journal_entries (c :: d)) (after_list true)
                     s1').
    { unfold step; cbn [handle]; rewrite awaiting_invoke by exact Hp0.
      rewrite forget_invoke by exact Hp0.
      unfold handleDeleteEntry_settled, loadEntries.
      change (c_directory (render s)) with (journalDirectory s).
      rewrite Hd; apply commit_idle; reflexivity. }
    rewrite E1, E2.
    assert (Hp1 : promises_fresh s1' = true)
      by (eapply promises_fresh_mono; [..|exact Hpro];
          [reflexivity|simpl; lia]).
    split; [reflexivity|].
    split; [reflexivity|].
    split; [exact He|].
    split; [reflexivity|].
    split; [reflexivity|].
    assert (Hoid : oid e < next_id s).
    { unfold objects_fresh in Hobj; rewrite He in Hobj.
      apply andb_true_iff in Hobj as [Hobj _]; now apply Nat.ltb_lt in Hobj. }
    intros r.
    change (S (next_id s0)) with (next_id s1').
    unfold step; cbn [handle].
    rewrite awaiting_invoke by exact Hp1.
    rewrite forget_invoke by exact Hp1.
    unfold loadEntries_settled, handleGoToToday.
    destruct r as [l|];
      (erewrite commit_switch with (d := c :: d);
       [|rewrite <- Hwf; apply timers_wf_frame; reflexivity
        |exact Hd|discriminate|reflexivity|exact Hd|]);
      [simpl; rewrite map_obj_allocate; repeat split
      |simpl; rewrite He; simpl; apply Nat.eqb_neq; lia
      |simpl; repeat split
      |simpl; rewrite He; simpl; apply Nat.eqb_neq; lia].
Qed.

Lemma delete_titled_not_daily_witness :
  let s := run opened
             [SelectEntry 0;
              LoadSettled 5 (resolved (Some (js "Packing list")))] in
  let s2 := run s [DeleteEntry true; DeleteSettled 8 true] in
  let s3 := step s2 (ListSettled 9 (resolved [])) in
  let s3' := step s2 (ListSettled 9 rejected) in
  let day := {| filename := js "2026-01-20.md"; entry_type := daily;
                title := js "2026-01-20"; date := Some (js "2026-01-20") |} in
  entries s3 = []
  /\ option_map obj (currentEntry s3) = Some day
  /\ map obj (entries s3') = [trip]
  /\ option_map obj (currentEntry s3') = Some day.
Proof.
  intros s s2 s3 s3' day.
  destruct (@delete_titled_not_daily s journal {| oid := 4; obj := trip |})
    as [_ H];
    [reflexivity|reflexivity|reflexivity|reflexivity|discriminate
    |reflexivity|].
  destruct (H eq_refl) as (_ & _ & _ & _ & _ & H3).
  destruct (H3 (resolved [])) as (H4 & H5 & _).
  destruct (H3 rejected) as (H6 & H7 & _).
  split; [now apply map_eq_nil in H4|].
  split; [exact H5|].
  split; [exact (f_equal (map obj) H6)|exact H7].
Defined.

(** ** Between two events *)

Lemma render_loadEntries d s : render (loadEntries d false s) = render s.
Proof. unfold loadEntries; now break_match. Qed.

Lemma render_loadEntry r s : render (loadEntry r s) = render s.
Proof. unfold loadEntry; now break_match. Qed.

Lemma directory_default_entry r s :
  journalDirectory (default_entry_effect r s) = journalDirectory s.
Proof. unfold default_entry_effect; now break_match. Qed.

Lemma entry_default_entry r s :
  currentEntry s <> None -> currentEntry (default_entry_effect r s) <> None.
Proof. unfold default_entry_effect; break_match; simpl; easy. Qed.

Lemma directory_render s s' :
  render s' = render s -> journalDirectory s' = journalDirectory s.
Proof. intros H; apply (f_equal c_directory) in H; exact H. Qed.

Lemma entry_render s s' :
  render s' = render s -> currentEntry s' = currentEntry s.
Proof. intros H; apply (f_equal c_entry) in H; exact H. Qed.

(** No effect sets the directory. *)
Lemma directory_effects prev cur s :
  journalDirectory (effects prev cur s) = journalDirectory s.
Proof.
  unfold effects.
  repeat match goal with
         | |- context [if ?b then _ else _] => destruct b
         end;
    rewrite ?(directory_render (render_debounce_effect _ _)),
      ?(directory_render (render_loadEntry _ _)),
      ?directory_default_entry,
      ?(directory_render (render_loadEntries _ _)),
      ?(directory_render (render_debounce_cleanup _)); reflexivity.
Qed.

(** No effect closes the entry. *)
Lemma entry_effects prev cur s :
  currentEntry s <> None -> currentEntry (effects prev cur s) <> None.
Proof.
  intros H; unfold effects.
  repeat match goal with
         | |- context [if ?b then _ else _] => destruct b
         end;
    rewrite ?(entry_render (render_debounce_effect _ _)),
      ?(entry_render (render_loadEntry _ _));
    try apply entry_default_entry;
    rewrite ?(entry_render (render_loadEntries _ _)),
      ?(entry_render (render_debounce_cleanup _)); exact H.
Qed.

Lemma directory_commit prev s :
  journalDirectory (commit prev s) = journalDirectory s.
Proof. unfold commit; now rewrite !directory_effects. Qed.

Lemma entry_commit prev s :
  currentEntry s <> None -> currentEntry (commit prev s) <> None.
Proof. intros H; unfold commit; now apply entry_effects, entry_effects. Qed.

Lemma render_elapse ms s : render (elapse ms s) = render s.
Proof.
  unfold elapse; destruct (partition _ _) as [due rest].
  now rewrite render_fire.
Qed.

(** A handler keeps the directory or sets one that passes the guards. *)
Lemma directory_handle e s :
  journalDirectory (handle e s) = journalDirectory s
  \/ configured (journalDirectory (handle e s)) = true.
Proof.
  destruct e; cbn [handle];
    try (left; apply directory_render, render_elapse);
    unfold chooseDirectory, handleCreateNewEntry, handleSelectEntry,
      handleGoToToday, handleDeleteEntry, loadEntry_settled,
      saveEntry_settled, loadEntries_settled, handleDeleteEntry_settled,
      loadEntries, handleGoToToday;
    break_match; simpl; auto; left; congruence.
Qed.

(** A handler keeps an entry open once one is. *)
Lemma entry_handle e s :
  currentEntry s <> None -> currentEntry (handle e s) <> None.
Proof.
  intros H; destruct e; cbn [handle];
    try (now rewrite (entry_render (render_elapse _ _)));
    unfold chooseDirectory, handleCreateNewEntry, handleSelectEntry,
      handleGoToToday, handleDeleteEntry, loadEntry_settled,
      saveEntry_settled, loadEntries_settled, handleDeleteEntry_settled,
      loadEntries, handleGoToToday;
    break_match; simpl; try easy; congruence.
Qed.

(** Without a directory nothing is armed or pending, and a handler that
    leaves it so calls nothing. *)
Lemma handle_quiet e s :
  timers s = [] -> pending s = [] ->
  configured (journalDirectory (handle e s)) = false ->
  timers (handle e s) = [] /\ pending (handle e s) = []
  /\ calls (handle e s) = calls s.
Proof.
  intros Ht Hp; destruct e; cbn [handle];
    unfold awaiting, elapse; rewrite ?Ht, ?Hp; simpl;
    unfold chooseDirectory, handleCreateNewEntry, handleSelectEntry,
      handleGoToToday, handleDeleteEntry;
    break_match; simpl; rewrite ?Ht, ?Hp; auto;
    try (intros; discriminate);
    match goal with H : journalDirectory s = _ |- _ => rewrite H end;
    discriminate.
Qed.

Lemma effects_quiet prev cur s :
  configured (c_directory cur) = false ->
  timers s = [] -> pending s = [] ->
  timers (effects prev cur s) = [] /\ pending (effects prev cur s) = []
  /\ calls (effects prev cur s) = calls s
  /\ render (effects prev cur s) = render s.
Proof.
  intros Hc Ht Hp; unfold effects, debounce_effect, loadEntry,
    default_entry_effect, loadEntries, debounce_cleanup, clearTimeout.
  destruct (c_directory cur) as [[|c d]|]; [|discriminate|];
    break_match; simpl; rewrite ?Ht; auto.
Qed.

Lemma commit_quiet prev s :
  configured (journalDirectory s) = false ->
  timers s = [] -> pending s = [] ->
  timers (commit prev s) = [] /\ pending (commit prev s) = []
  /\ calls (commit prev s) = calls s.
Proof.
  intros Hc Ht Hp; unfold commit.
  destruct (@effects_quiet prev (render s) s) as (H1 & H2 & H3 & H4);
    try assumption.
  destruct (@effects_quiet (render s) (render (effects prev (render s) s))
              (effects prev (render s) s)) as (H5 & H6 & H7 & _);
    try assumption.
  - now rewrite H4.
  - rewrite H7; auto.
Qed.

Lemma configured_differs a b :
  configured a = false -> configured b = true -> same_directory a b = false.
Proof.
  destruct a as [[|x a]|], b as [[|y b]|]; simpl; try discriminate; auto.
Qed.

(** The first render with a directory opens an entry. *)
Lemma effects_open_entry prev s :
  configured (c_directory prev) = false ->
  configured (journalDirectory s) = true ->
  currentEntry (effects prev (render s) s) <> None.
Proof.
  intros Hp Hs; rewrite effects_directory
    by (apply configured_differs; assumption).
  rewrite (entry_render (render_debounce_effect _ _)),
    (entry_render (render_loadEntry _ _)).
  unfold default_entry_effect; cbn [render c_directory c_entry].
  destruct (journalDirectory s) as [[|c d]|]; try discriminate.
  destruct (currentEntry s) eqn:E; [|simpl; discriminate].
  rewrite (entry_render (render_loadEntries _ _)),
    (entry_render (render_debounce_cleanup _)); congruence.
Qed.

Lemma settled_init d : settled (init d).
Proof. split; [auto|discriminate]. Qed.

Lemma settled_step s e : settled s -> settled (step s e).
Proof.
  intros [Hq Ho]; unfold step; split; rewrite directory_commit; intros Hc.
  - destruct (configured (journalDirectory s)) eqn:Hs.
    + destruct (directory_handle e s) as [E|E]; congruence.
    + destruct (Hq eq_refl) as [Ht Hp].
      destruct (@handle_quiet e s) as (H1 & H2 & _); try assumption.
      destruct (@commit_quiet (render s) (handle e s)) as (H3 & H4 & _);
        auto.
  - destruct (configured (journalDirectory s)) eqn:Hs.
    + apply entry_commit, entry_handle, Ho; reflexivity.
    + unfold commit; apply entry_effects, effects_open_entry; assumption.
Qed.

Lemma settled_run evs : forall s, settled s -> settled (run s evs).
Proof.
  induction evs as [|e evs IH]; intros s H; [exact H|].
  apply IH, settled_step, H.
Qed.

(** ** The guards *)

(** C10: [loadEntries], [loadEntry], [saveEntry] and [handleDeleteEntry]
    return at once, leaving the state as it is, when the directory they
    see is [null] or empty or (for the last three) the entry they see is
    [null]; and in every run from the initial render, an event after which
    still no directory is set, or still no entry is open, has sent no call
    to the backend. *)
Theorem backend_waits_for_directory_and_entry :
  (forall s, loadEntries None false s = s
             /\ loadEntries (Some []) false s = s)
  /\ (forall r s,
        configured (c_directory r) = false \/ c_entry r = None ->
        loadEntry r s = s /\ saveEntry r s = s)
  /\ (forall confirmed s,
        configured (journalDirectory s) = false \/ currentEntry s = None ->
        handleDeleteEntry confirmed s = s)
  /\ (forall d evs e,
        let s := run (init d) evs in
        let s' := step s e in
        (configured (journalDirectory s') = false -> calls s' = calls s)
        /\ (currentEntry s' = None -> calls s' = calls s)).
Proof.
  split; [|split; [|split]].
  - intros s; split; reflexivity.
  - intros r s [H|H]; unfold loadEntry, saveEntry.
    + destruct (c_directory r) as [[|c d]|]; [auto|discriminate|auto].
    + rewrite H; destruct (c_directory r) as [[|c d]|]; auto.
  - intros confirmed s [H|H]; unfold handleDeleteEntry.
    + destruct (journalDirectory s) as [[|c d]|]; [auto|discriminate|auto].
    + rewrite H; destruct (journalDirectory s) as [[|c d]|]; auto.
  - intros d evs e s s'.
    assert (Hs : settled s) by apply settled_run, settled_init.
    assert (Hs' : settled s') by apply settled_step, Hs.
    assert (Hquiet : configured (journalDirectory s') = false ->
                     calls s' = calls s).
    { intros Hc; destruct Hs as [Hq _].
      unfold s', step in *; rewrite directory_commit in Hc.
      destruct (configured (journalDirectory s)) eqn:Hdir.
      - destruct (directory_handle e s) as [E|E]; congruence.
      - destruct (Hq eq_refl) as [Ht Hp].
        destruct (@handle_quiet e s) as (H1 & H2 & H3); try assumption.
        destruct (@commit_quiet (render s) (handle e s)) as (_ & _ & H4);
          try assumption.
        congruence. }
    split; [exact Hquiet|].
    intros Hnone; apply Hquiet.
    destruct Hs' as [_ Ho].
    destruct (configured (journalDirectory s')); [|reflexivity].
    now elim (Ho eq_refl).
Qed.

Lemma backend_waits_for_directory_and_entry_witness :
  calls (step (run (init jan20) [GoToToday]) (Edit (js "x"))) = [].
Proof.
  destruct backend_waits_for_directory_and_entry as (_ & _ & _ & H).
  destruct (H jan20 [GoToToday] (Edit (js "x"))) as [H1 _].
  rewrite H1; reflexivity.
Defined.

(** ** Every run is well formed *)

Lemma timers_saveEntry cl s :
  timers (saveEntry cl s) = timers s /\ cleanup (saveEntry cl s) = cleanup s.
Proof. unfold saveEntry; break_match; simpl; auto. Qed.

Lemma timers_fire due s :
  let s' := fold_left (fun acc tm => saveEntry (callback tm) acc) due s in
  timers s' = timers s /\ cleanup s' = cleanup s.
Proof.
  revert s; induction due as [|t due IH]; intros s; simpl; [auto|].
  destruct (IH (saveEntry (callback t) s)) as [-> ->].
  apply timers_saveEntry.
Qed.

Lemma timers_wf_handle e s :
  timers_wf s = true -> timers_wf (handle e s) = true.
Proof.
  intros H; destruct e; cbn [handle];
    try (rewrite <- H; apply timers_wf_frame; unfold_handlers;
         break_match; reflexivity).
  unfold elapse; destruct (partition _ _) as [due rest] eqn:E.
  rewrite (@timers_wf_frame (set_timers rest (set_now (now s + ms) s)));
    try apply timers_fire.
  unfold timers_wf in *; simpl.
  destruct (timers s) as [|t [|t' l]]; try discriminate; simpl in E.
  - now inversion E.
  - destruct (deadline t <=? now s + ms); now inversion E.
Qed.

Lemma timers_wf_effects prev cur s :
  timers_wf s = true -> timers_wf (effects prev cur s) = true.
Proof.
  intros H; unfold effects.
  destruct (negb (same_directory _ _) || negb (same_entry _ _)
            || negb (str_eqb _ _)).
  - rewrite cleanup_clears by exact H.
    unfold debounce_effect.
    destruct (c_directory cur) as [[|c d]|] eqn:Hd;
      destruct (c_entry cur) eqn:He;
      try (unfold timers_wf, setTimeout; simpl;
           repeat match goal with
                  | |- context [if ?b then _ else _] => destruct b
                  end;
           unfold default_entry_effect, loadEntry, loadEntries;
           rewrite ?Hd, ?He; simpl; now rewrite ?Nat.eqb_refl).
  - rewrite <- H; apply timers_wf_frame;
      repeat match goal with
             | |- context [if ?b then _ else _] => destruct b
             end;
      unfold default_entry_effect, loadEntry, loadEntries, invoke,
        setCurrentEntry_new; break_match; reflexivity.
Qed.

Lemma timers_wf_step s e : timers_wf s = true -> timers_wf (step s e) = true.
Proof.
  intros H; unfold step, commit.
  now apply timers_wf_effects, timers_wf_effects, timers_wf_handle.
Qed.

Lemma forallb_lt_mono A (f : A -> nat) n m l :
  n <= m ->
  forallb (fun x => f x <? n) l = true ->
  forallb (fun x => f x <? m) l = true.
Proof.
  intros Hle H; rewrite forallb_forall in *; intros x Hx.
  specialize (H x Hx); apply Nat.ltb_lt in H; apply Nat.ltb_lt; lia.
Qed.

Lemma objects_fresh_mono s s' :
  currentEntry s' = currentEntry s -> entries s' = entries s ->
  next_id s <= next_id s' ->
  objects_fresh s = true -> objects_fresh s' = true.
Proof.
  unfold objects_fresh; intros -> -> Hle H.
  apply andb_true_iff in H as [H1 H2]; apply andb_true_iff; split.
  - destruct (currentEntry s); [|reflexivity].
    apply Nat.ltb_lt in H1; apply Nat.ltb_lt; lia.
  - eapply forallb_lt_mono; eassumption.
Qed.

Lemma fresh_mono s s' :
  pending s' = pending s -> currentEntry s' = currentEntry s ->
  entries s' = entries s -> next_id s <= next_id s' ->
  fresh s -> fresh s'.
Proof.
  intros Hp Hc He Hn [H1 H2]; split.
  - eapply promises_fresh_mono; eassumption.
  - eapply objects_fresh_mono; eassumption.
Qed.

Lemma fresh_invoke c k s : fresh s -> fresh (invoke c k s).
Proof.
  intros [H1 H2]; split.
  - unfold promises_fresh, invoke in *; simpl; rewrite forallb_app; simpl.
    rewrite (@forallb_lt_mono _ promise_id (next_id s) (S (next_id s)));
      [|lia|exact H1].
    simpl; rewrite andb_true_r; apply Nat.ltb_lt; lia.
  - eapply objects_fresh_mono; [..|exact H2]; simpl; auto.
Qed.

Lemma fresh_forget id s : fresh s -> fresh (forget id s).
Proof.
  intros [H1 H2]; split; [|exact H2].
  unfold promises_fresh, forget in *; simpl.
  rewrite forallb_forall in *; intros p Hp.
  apply filter_In in Hp as [Hp _]; auto.
Qed.

Lemma fresh_new e s : fresh s -> fresh (setCurrentEntry_new e s).
Proof.
  intros [H1 H2]; split.
  - eapply promises_fresh_mono; [..|exact H1]; simpl; auto.
  - unfold objects_fresh in *; simpl.
    apply andb_true_iff in H2 as [_ H2]; apply andb_true_iff; split.
    + apply Nat.ltb_lt; lia.
    + eapply forallb_lt_mono; [|exact H2]; lia.
Qed.

Lemma fresh_select i e s :
  nth_error (entries s) i = Some e -> fresh s ->
  fresh (handleSelectEntry e s).
Proof.
  intros Hi [H1 H2]; split; [exact H1|].
  unfold objects_fresh in *; simpl.
  apply andb_true_iff in H2 as [_ H2]; rewrite H2, andb_true_r.
  rewrite forallb_forall in H2; eapply H2, nth_error_In, Hi.
Qed.

Lemma allocate_lt l : forall n,
  forallb (fun e => oid e <? n + List.length l) (allocate n l) = true.
Proof.
  induction l as [|e l IH]; intros n; simpl; [reflexivity|].
  apply andb_true_iff; split; [apply Nat.ltb_lt; lia|].
  replace (n + S (List.length l)) with (S n + List.length l) by lia.
  apply IH.
Qed.

Lemma fresh_entries l s :
  fresh s ->
  fresh (set_next_id (next_id s + List.length l)
           (set_entries (allocate (next_id s) l) s)).
Proof.
  intros [H1 H2]; split.
  - eapply promises_fresh_mono; [..|exact H1]; simpl; [auto|lia].
  - unfold objects_fresh in *; simpl.
    apply andb_true_iff in H2 as [H2 _]; apply andb_true_iff; split.
    + destruct (currentEntry s); [|reflexivity].
      apply Nat.ltb_lt in H2; apply Nat.ltb_lt; lia.
    + apply allocate_lt.
Qed.

Lemma fresh_setTimeout r ms s : fresh s -> fresh (setTimeout r ms s).
Proof. apply fresh_mono; simpl; auto. Qed.

Lemma fresh_loadEntries d b s : fresh s -> fresh (loadEntries d b s).
Proof.
  intros H; unfold loadEntries, handleGoToToday; break_match;
    auto using fresh_invoke, fresh_new.
Qed.

Lemma fresh_loadEntry r s : fresh s -> fresh (loadEntry r s).
Proof.
  intros H; unfold loadEntry; break_match; auto using fresh_invoke.
Qed.

Lemma fresh_saveEntry cl s : fresh s -> fresh (saveEntry cl s).
Proof.
  intros H; unfold saveEntry; break_match; try exact H.
  apply fresh_invoke; exact H.
Qed.

Lemma fresh_fire due : forall s,
  fresh s ->
  fresh (fold_left (fun acc tm => saveEntry (callback tm) acc) due s).
Proof.
  induction due as [|t due IH]; intros s H; simpl; [exact H|].
  apply IH, fresh_saveEntry, H.
Qed.

Lemma fresh_handle e s : fresh s -> fresh (handle e s).
Proof.
  intros H; destruct e; cbn [handle]; try exact H.
  - unfold chooseDirectory; break_match; exact H.
  - unfold chooseDirectory; break_match; exact H.
  - unfold handleCreateNewEntry; break_match; [exact H|].
    eapply fresh_mono; [| | | |apply fresh_new, H]; reflexivity.
  - destruct (nth_error (entries s) i) eqn:E; [|exact H].
    eapply fresh_select; eassumption.
  - apply fresh_new, H.
  - unfold handleDeleteEntry; break_match; try exact H.
    apply (@fresh_invoke _ _ (set_dialogs _ s)), H.
  - unfold elapse; destruct (partition _ _) as [due rest].
    apply fresh_fire; exact H.
  - break_match; try exact H.
    unfold loadEntry_settled; break_match; apply (fresh_forget id H).
  - break_match; try exact H.
    unfold saveEntry_settled; break_match;
      try apply fresh_loadEntries; apply (fresh_forget id H).
  - break_match; try exact H.
    unfold loadEntries_settled, handleGoToToday; break_match;
      try apply fresh_new;
      try apply (@fresh_entries _ (forget id s));
      apply (fresh_forget id H).
  - break_match; try exact H.
    unfold handleDeleteEntry_settled; break_match;
      try apply fresh_loadEntries; apply (fresh_forget id H).
Qed.

Lemma fresh_effects prev cur s : fresh s -> fresh (effects prev cur s).
Proof.
  intros H; unfold effects.
  assert (Hc : fresh (debounce_cleanup s))
    by (unfold debounce_cleanup; break_match; exact H).
  assert (Hd : forall x, fresh x -> fresh (default_entry_effect cur x))
    by (intros x Hx; unfold default_entry_effect; break_match;
        auto using fresh_new).
  assert (He : forall x, fresh x -> fresh (debounce_effect cur x))
    by (intros x Hx; unfold debounce_effect; break_match; try exact Hx;
        eapply fresh_mono; [| | | |exact Hx]; try reflexivity; simpl; lia).
  repeat match goal with
         | |- context [if ?b then _ else _] => destruct b
         end;
    auto using fresh_loadEntries, fresh_loadEntry.
Qed.

Lemma fresh_step s e : fresh s -> fresh (step s e).
Proof.
  intros H; unfold step, commit.
  now apply fresh_effects, fresh_effects, fresh_handle.
Qed.

(** Every state of a run from the initial render is well formed. *)
Lemma run_well_formed d evs :
  let s := run (init d) evs in
  timers_wf s = true /\ promises_fresh s = true /\ objects_fresh s = true.
Proof.
  assert (H : forall evs s,
             timers_wf s = true /\ fresh s ->
             timers_wf (run s evs) = true /\ fresh (run s evs)).
  { clear evs; induction evs as [|e evs IH]; intros s [H1 H2]; [auto|].
    apply IH; split; [apply timers_wf_step, H1|apply fresh_step, H2]. }
  destruct (H evs (init d)) as (H1 & H2 & H3); [|auto].
  repeat split.
Qed.

(** ** Two renders are enough *)

Lemma render_effects_open prev cur s :
  c_entry cur <> None -> render (effects prev cur s) = render s.
Proof.
  intros H; unfold effects.
  assert (Hd : forall x, render (default_entry_effect cur x) = render x)
    by (intros x; unfold default_entry_effect; break_match;
        try reflexivity; congruence).
  repeat match goal with
         | |- context [if ?b then _ else _] => destruct b
         end;
    now rewrite ?render_debounce_effect, ?render_loadEntry, ?Hd,
      ?render_loadEntries, ?render_debounce_cleanup.
Qed.

(** After [commit] a further render would run no effect: the second pass
    leaves the directory, the entry and the buffer as the first left
    them. *)
Lemma commit_settles prev s :
  let s1 := effects prev (render s) s in
  effects (render s1) (render (commit prev s)) (commit prev s)
  = commit prev s.
Proof.
  intros s1; unfold commit; fold s1.
  assert (E : render (effects (render s) (render s1) s1) = render s1);
    [|rewrite E; apply effects_refl].
  destruct (currentEntry s1) eqn:H1.
  - apply render_effects_open; cbn [render c_entry]; congruence.
  - assert (H0 : currentEntry s = None).
    { destruct (currentEntry s) eqn:H0; [|reflexivity].
      exfalso; apply (@entry_effects prev (render s) s);
        [congruence|exact H1]. }
    assert (Hdir : journalDirectory s1 = journalDirectory s)
      by apply directory_effects.
    unfold effects at 1; cbn [render c_directory c_entry c_content].
    rewrite Hdir, H1, H0, same_directory_refl; simpl.
    destruct (str_eqb (content s) (content s1)); simpl; [reflexivity|].
    now rewrite render_debounce_effect, render_debounce_cleanup.
Qed.

(** ** What a switch arms *)

(** Asking for the entry of the day while an entry is open: the timer that
    was armed is gone, the load of the day's file goes out, and the one
    timer armed now closes over the new entry and over the buffer as it
    was. *)
Lemma switch_rearms_over_old_buffer s d e :
  timers_wf s = true -> objects_fresh s = true ->
  journalDirectory s = Some d -> d <> [] -> currentEntry s = Some e ->
  let s1 := step s GoToToday in
  content s1 = content s
  /\ calls s1 = load_journal (today s ++ js ".md") d :: calls s
  /\ timers s1
     = [{| timer_id := S (S (next_id s)); delay := 1000;
           deadline := now s + 1000;
           callback := {| c_directory := Some d;
                          c_entry := currentEntry s1;
                          c_content := content s |} |}].
Proof.
  intros Hwf Hfresh Hd Hne He s1.
  assert (E : s1 = step s GoToToday) by reflexivity; clearbody s1.
  unfold step in E; cbn [handle] in E; unfold handleGoToToday in E.
  erewrite commit_switch with (d := d) in E;
    [|rewrite <- Hwf; apply timers_wf_frame; reflexivity
     |exact Hd|exact Hne|reflexivity|exact Hd
     |apply fresh_entry_differs, Hfresh].
  subst s1; unfold render; simpl; rewrite Hd; repeat split.
Qed.

(** ** A first day *)

(** The session of the README: the user starts writing, the entry is
    saved after one second without typing, and the list of entries is
    asked for again. *)
Example first_day :
  let typed := run opened [Edit (js "Hello")] in
  let fired := step typed (Elapse 1000) in
  let done := step fired (SaveSettled 6 true) in
  saveStatus opened = saved
  /\ saveStatus typed = unsaved /\ calls typed = calls opened
  /\ saveStatus fired = saving
  /\ calls fired
     = save_journal (js "2026-01-20.md") (js "Hello") journal :: calls typed
  /\ saveStatus done = saved
  /\ calls done = list_journal_entries journal :: calls fired
  /\ timers done = [].
Proof. vm_compute; repeat split. Qed.

(** ** What sanitized titles look like *)

Lemma hyphen_plain : is_reserved hyphen = false /\ is_space hyphen = false.
Proof. split; reflexivity. Qed.

Lemma space_plain : is_reserved space = false /\ is_space space = true.
Proof. split; reflexivity. Qed.

Lemma replace_reserved_space s :
  map is_space (replace_reserved s) = map is_space s.
Proof.
  induction s as [|c s IH]; simpl; [reflexivity|]; rewrite IH; f_equal.
  destruct (is_reserved c) eqn:H; [|reflexivity].
  now rewrite (reserved_not_space _ H).
Qed.

Lemma replace_reserved_clean s :
  Forall (fun c => is_reserved c = false) (replace_reserved s).
Proof.
  induction s as [|c s IH]; simpl; constructor; [|exact IH].
  now destruct (is_reserved c) eqn:H.
Qed.

(** [replace_spaces_from] adds nothing but spaces. *)
Lemma replace_spaces_from_Forall (P : char16 -> Prop) b s :
  P space -> Forall P s -> Forall P (replace_spaces_from b s).
Proof.
  intros Hsp H; revert b; induction H as [|c s Hc _ IH]; intros b; simpl;
    [constructor|].
  destruct (is_space c); [destruct b|]; auto.
Qed.

Lemma replace_spaces_from_space b s c :
  In c (replace_spaces_from b s) -> is_space c = true -> c = space.
Proof.
  revert b; induction s as [|x s IH]; intros b; simpl; [easy|].
  destruct (is_space x) eqn:Hx; [destruct b|]; simpl; intros H Hc.
  - eauto.
  - destruct H as [<-|H]; eauto.
  - destruct H as [<-|H]; [congruence|eauto].
Qed.

(** After a match has begun, the result does not start with whitespace. *)
Lemma replace_spaces_from_head s :
  hd_error (map is_space (replace_spaces_from true s)) <> Some true.
Proof.
  induction s as [|x s IH]; simpl; [discriminate|].
  destruct (is_space x) eqn:Hx; simpl; [exact IH|congruence].
Qed.

Lemma replace_spaces_from_pairs s : forall b l1 x y l2,
  replace_spaces_from b s = l1 ++ x :: y :: l2 ->
  is_space x = true -> is_space y = false.
Proof.
  induction s as [|c s IH]; intros b l1 x y l2; simpl.
  - now destruct l1.
  - destruct (is_space c) eqn:Hc; [destruct b|].
    + apply IH.
    + destruct l1 as [|z l1]; simpl; intros E Hx; injection E as E1 E2.
      * pose proof (replace_spaces_from_head s) as Hh.
        rewrite E2 in Hh; simpl in Hh.
        destruct (is_space y); congruence.
      * eapply IH; eassumption.
    + destruct l1 as [|z l1]; simpl; intros E Hx; injection E as E1 E2.
      * congruence.
      * eapply IH; eassumption.
Qed.

Lemma trimStart_head s :
  hd_error (map is_space (trimStart s)) <> Some true.
Proof.
  induction s as [|c s IH]; simpl; [discriminate|].
  destruct (is_space c) eqn:Hc; [exact IH|simpl; congruence].
Qed.

Lemma trimStart_id s :
  hd_error (map is_space s) <> Some true -> trimStart s = s.
Proof.
  destruct s as [|c s]; simpl; [reflexivity|].
  destruct (is_space c); [now intros H; elim H|reflexivity].
Qed.

Lemma trimEnd_id s :
  hd_error (map is_space (rev s)) <> Some true -> trimEnd s = s.
Proof.
  intros H; unfold trimEnd; rewrite trimStart_id by exact H.
  apply rev_involutive.
Qed.

Lemma trimEnd_last s :
  hd_error (map is_space (rev (trimEnd s))) <> Some true.
Proof. unfold trimEnd; rewrite rev_involutive; apply trimStart_head. Qed.

(** [trimEnd] keeps a prefix. *)
Lemma trimEnd_prefix s :
  exists run, s = trimEnd s ++ run /\ forallb is_space run = true.
Proof.
  destruct (trimStart_suffix (rev s)) as (run & E & Hrun).
  exists (rev run); split.
  - unfold trimEnd; rewrite <- rev_app_distr, <- E; symmetry.
    apply rev_involutive.
  - rewrite forallb_forall in *; intros c Hc; apply Hrun, in_rev, Hc.
Qed.

Lemma trim_head s : hd_error (map is_space (trim s)) <> Some true.
Proof.
  unfold trim; pose proof (trimStart_head s) as H.
  destruct (trimEnd_prefix (trimStart s)) as (run & E & _).
  destruct (trimEnd (trimStart s)) as [|c r] eqn:Et; [discriminate|].
  rewrite E in H; exact H.
Qed.

Lemma trim_last s : hd_error (map is_space (rev (trim s))) <> Some true.
Proof. apply trimEnd_last. Qed.

(** A string with nothing to trim is left as it is. *)
Lemma trim_id s :
  hd_error (map is_space s) <> Some true ->
  hd_error (map is_space (rev s)) <> Some true -> trim s = s.
Proof.
  intros H1 H2; unfold trim; rewrite (trimStart_id _ H1).
  apply trimEnd_id, H2.
Qed.

Lemma replace_reserved_id s :
  Forall (fun c => is_reserved c = false) s -> replace_reserved s = s.
Proof.
  induction 1 as [|c s Hc _ IH]; simpl; [reflexivity|].
  now rewrite Hc, IH.
Qed.

Lemma replace_spaces_from_twice s : forall b,
  replace_spaces_from false (replace_spaces_from b s)
  = replace_spaces_from b s
  /\ replace_spaces_from true (replace_spaces_from true s)
     = replace_spaces_from true s.
Proof.
  induction s as [|c s IH]; intros b; simpl; [auto|].
  destruct (is_space c) eqn:Hc.
  - destruct (IH true) as [H1 H2]; split; [|exact H2].
    destruct b; [exact H1|].
    simpl; now rewrite H2.
  - destruct (IH false) as [H1 _]; simpl; rewrite Hc, H1; auto.
Qed.

Lemma replace_spaces_from_snoc c s : forall b,
  is_space c = false ->
  replace_spaces_from b (s ++ [c]) = replace_spaces_from b s ++ [c].
Proof.
  induction s as [|x s IH]; intros b Hc; simpl.
  - now rewrite Hc.
  - destruct (is_space x); [destruct b|]; now rewrite IH.
Qed.

(** Whitespace at the end of the input is the only way to end in
    whitespace. *)
Lemma replace_spaces_from_last s b :
  hd_error (map is_space (rev s)) <> Some true ->
  hd_error (map is_space (rev (replace_spaces_from b s))) <> Some true.
Proof.
  destruct s as [|c s _] using rev_ind; intros H; [exact H|].
  rewrite rev_app_distr in H; simpl in H.
  assert (Hc : is_space c = false) by (destruct (is_space c); congruence).
  rewrite replace_spaces_from_snoc, rev_app_distr by exact Hc.
  simpl; congruence.
Qed.

Lemma replace_spaces_from_first s b :
  hd_error (map is_space s) <> Some true ->
  hd_error (map is_space (replace_spaces_from b s)) <> Some true.
Proof.
  destruct s as [|c s]; simpl; [auto|].
  destruct (is_space c) eqn:Hc; [now intros H; elim H|].
  simpl; congruence.
Qed.

Lemma replace_spaces_from_plain s b :
  Forall (fun c => is_space c = false) s -> replace_spaces_from b s = s.
Proof.
  intros H; revert b; induction H as [|c s Hc _ IH]; intros b; simpl;
    [reflexivity|].
  now rewrite Hc, IH.
Qed.

Lemma hd_map_rev_replace_reserved s :
  map is_space (rev (replace_reserved s)) = map is_space (rev s).
Proof.
  unfold replace_reserved; rewrite <- map_rev.
  apply replace_reserved_space.
Qed.

(** The shape of a sanitized title. *)
Lemma sanitizedTitle_shape t :
  let out := sanitizedTitle t in
  Forall (fun c => is_reserved c = false) out
  /\ hd_error (map is_space out) <> Some true
  /\ hd_error (map is_space (rev out)) <> Some true.
Proof.
  unfold sanitizedTitle, replace_spaces; repeat split.
  - apply replace_spaces_from_Forall;
      [reflexivity|apply replace_reserved_clean].
  - apply replace_spaces_from_first.
    rewrite replace_reserved_space; apply trim_head.
  - apply replace_spaces_from_last.
    rewrite hd_map_rev_replace_reserved; apply trim_last.
Qed.

Lemma sanitizedTitle_twice t :
  sanitizedTitle (sanitizedTitle t) = sanitizedTitle t.
Proof.
  destruct (sanitizedTitle_shape t) as (H1 & H2 & H3).
  unfold sanitizedTitle at 1.
  rewrite trim_id, replace_reserved_id by assumption.
  unfold sanitizedTitle, replace_spaces.
  apply replace_spaces_from_twice.
Qed.

Lemma sanitizedTitle_plain t :
  Forall (fun c => is_space c = false /\ is_reserved c = false) t ->
  sanitizedTitle t = t.
Proof.
  intros H.
  assert (Hs : Forall (fun c => is_space c = false) t)
    by (eapply Forall_impl; [|exact H]; now intros c [? ?]).
  assert (Hr : Forall (fun c => is_reserved c = false) t)
    by (eapply Forall_impl; [|exact H]; now intros c [? ?]).
  assert (Hhd : forall l, Forall (fun c => is_space c = false) l ->
                          hd_error (map is_space l) <> Some true)
    by (intros l Hl; destruct Hl; simpl; congruence).
  unfold sanitizedTitle, replace_spaces.
  rewrite trim_id, replace_reserved_id, replace_spaces_from_plain;
    auto using Forall_rev.
Qed.


Lemma sanitizedTitle_empty_iff t :
  sanitizedTitle t = [] <-> forallb is_space t = true.
Proof.
  rewrite <- trim_empty_iff; unfold sanitizedTitle, replace_spaces; split.
  - destruct (trim t) as [|c r]; [reflexivity|]; simpl.
    destruct (is_reserved c); simpl; [discriminate|].
    destruct (is_space c); discriminate.
  - now intros ->.
Qed.

(** ** Who calls the backend *)

Lemma saves_effects prev cur s :
  filter is_save (calls (effects prev cur s)) = filter is_save (calls s).
Proof.
  unfold effects, debounce_effect, loadEntry, default_entry_effect,
    loadEntries, debounce_cleanup; break_if; break_match; reflexivity.
Qed.

Lemma saves_handle e s :
  (forall ms, e <> Elapse ms) ->
  filter is_save (calls (handle e s)) = filter is_save (calls s).
Proof.
  intros H; destruct e; cbn [handle];
    try (now elim (H ms)); unfold_handlers; break_match; reflexivity.
Qed.

Lemma directed_saveEntry cl s :
  forallb directed (calls s) = true ->
  forallb directed (calls (saveEntry cl s)) = true.
Proof. intros H; unfold saveEntry; break_match; simpl; assumption. Qed.

Lemma directed_fire due : forall s,
  forallb directed (calls s) = true ->
  forallb directed
    (calls (fold_left (fun acc tm => saveEntry (callback tm) acc) due s))
  = true.
Proof.
  induction due as [|t due IH]; intros s H; simpl; [exact H|].
  apply IH, directed_saveEntry, H.
Qed.

Lemma directed_handle e s :
  forallb directed (calls s) = true ->
  forallb directed (calls (handle e s)) = true.
Proof.
  intros H; destruct e; cbn [handle];
    try (unfold elapse; destruct (partition _ _); apply directed_fire, H);
    unfold_handlers; break_match; simpl; assumption.
Qed.

Lemma directed_effects prev cur s :
  forallb directed (calls s) = true ->
  forallb directed (calls (effects prev cur s)) = true.
Proof.
  intros H; unfold effects, debounce_effect, loadEntry,
    default_entry_effect, loadEntries, debounce_cleanup;
    break_if; break_match; simpl; assumption.
Qed.

(** X1: No handler writes an entry. Whatever the event, as long as it is
    not the passing of time, the calls [save_journal] sent so far are the
    same after it as before: selecting, creating, deleting, going to today,
    choosing a directory, typing, and the settling of a load, a save, a
    list or a delete send none. Only a debounce timer that comes due does. *)
Theorem only_the_clock_saves s e :
  (forall ms, e <> Elapse ms) ->
  filter is_save (calls (step s e)) = filter is_save (calls s).
Proof.
  intros H; unfold step, commit.
  now rewrite !saves_effects, saves_handle.
Qed.

Lemma only_the_clock_saves_witness :
  filter is_save (calls (step opened GoToToday))
  = filter is_save (calls opened).
Proof.
  apply only_the_clock_saves; intros ms; discriminate.
Defined.

(** X2: From the first render on, whatever the events, every call sent to
    the backend (load, save, list, delete) names a directory that is not
    the empty string. *)
Theorem every_call_names_a_directory d evs :
  forallb directed (calls (run (init d) evs)) = true.
Proof.
  assert (H : forall evs s, forallb directed (calls s) = true ->
                            forallb directed (calls (run s evs)) = true).
  { clear evs; induction evs as [|e evs IH]; intros s H; [exact H|].
    apply IH; unfold step, commit.
    now apply directed_effects, directed_effects, directed_handle. }
  now apply H.
Qed.


(** ** Timers are never late *)

Lemma on_time_frame s s' :
  timers s' = timers s -> now s' = now s -> on_time s -> on_time s'.
Proof. unfold on_time; now intros -> ->. Qed.

Lemma on_time_cleanup s : on_time s -> on_time (debounce_cleanup s).
Proof.
  unfold on_time, debounce_cleanup, clearTimeout; intros H.
  destruct (cleanup s); [|exact H]; simpl.
  rewrite Forall_forall in *; intros t Ht.
  apply filter_In in Ht as [Ht _]; auto.
Qed.

Lemma on_time_debounce_effect r s :
  on_time s -> on_time (debounce_effect r s).
Proof.
  unfold on_time, debounce_effect; intros H; break_match; try exact H.
  simpl; apply Forall_app; split; [exact H|].
  repeat constructor; simpl; lia.
Qed.

Lemma on_time_effects prev cur s : on_time s -> on_time (effects prev cur s).
Proof.
  intros H; unfold effects.
  assert (Hf : forall x, on_time x ->
             on_time (loadEntry cur (default_entry_effect cur x))
             /\ on_time (loadEntries (c_directory cur) false x)).
  { intros x Hx; split; (eapply on_time_frame; [| |exact Hx]);
      unfold loadEntry, default_entry_effect, loadEntries;
      break_match; reflexivity. }
  break_if;
    repeat first [apply on_time_debounce_effect | apply Hf
                 | apply on_time_cleanup | exact H].
Qed.

Lemma on_time_fire due : forall s,
  let s' := fold_left (fun acc tm => saveEntry (callback tm) acc) due s in
  now s' = now s.
Proof.
  induction due as [|t due IH]; intros s; simpl; [reflexivity|].
  rewrite IH; unfold saveEntry; break_match; reflexivity.
Qed.

Lemma on_time_handle e s : on_time s -> on_time (handle e s).
Proof.
  intros H; destruct e; cbn [handle];
    try (eapply on_time_frame; [| |exact H]; unfold_handlers;
         break_match; reflexivity).
  unfold elapse; rewrite partition_as_filter.
  unfold on_time; destruct (timers_fire
    (filter (fun tm => deadline tm <=? now s + ms) (timers s))
    (set_timers
       (filter (fun x => negb (deadline x <=? now s + ms)) (timers s))
       (set_now (now s + ms) s))) as [-> _].
  rewrite on_time_fire; simpl.
  unfold on_time in H; rewrite Forall_forall in *; intros t Ht.
  apply filter_In in Ht as [Ht Hd]; destruct (H t Ht) as [H1 H2].
  apply negb_true_iff, Nat.leb_gt in Hd; lia.
Qed.

(** X3: From the first render on, whatever the events, at most one debounce
    timer is armed between two events; it has a delay of 1000 ms, and it is
    due later than now and at most 1000 ms from now: a timer that is due
    has fired before the next event is handled. *)
Theorem one_timer_never_late d evs :
  let s := run (init d) evs in
  List.length (timers s) <= 1
  /\ Forall (fun t => delay t = 1000
                      /\ now s < deadline t <= now s + 1000) (timers s).
Proof.
  intros s; split.
  - destruct (run_well_formed d evs) as [H _]; fold s in H.
    unfold timers_wf in H; destruct (timers s) as [|t [|t' l]];
      simpl; [lia|lia|discriminate].
  - subst s.
    assert (H : forall evs s, on_time s -> on_time (run s evs)).
    { clear evs; induction evs as [|e evs IH]; intros s H; [exact H|].
      apply IH; unfold step, commit.
      now apply on_time_effects, on_time_effects, on_time_handle. }
    apply H; constructor.
Qed.

(** ** Waiting *)

Lemma wait_without_timers waits : forall s,
  timers s = [] ->
  let s' := run s (map Elapse waits) in
  timers s' = [] /\ calls s' = calls s /\ saveStatus s' = saveStatus s
  /\ content s' = content s.
Proof.
  induction waits as [|ms waits IH]; intros s Ht; simpl; [auto|].
  rewrite step_elapse; unfold elapse; rewrite Ht; simpl.
  destruct (IH (set_timers [] (set_now (now s + ms) s)) eq_refl)
    as (H1 & H2 & H3 & H4).
  auto.
Qed.

(** X4: A save that fails is not tried again by itself. When the save with
    the promise [id] is rejected in a state with no timer armed, the status
    becomes unsaved, the buffer is kept, and however long one waits after
    that no call is sent and no timer is armed. *)
Theorem failed_save_is_not_retried s id cl waits :
  awaiting id s = Some (after_save cl) -> timers s = [] ->
  let s' := run s (SaveSettled id false :: map Elapse waits) in
  calls s' = calls s /\ saveStatus s' = unsaved /\ content s' = content s
  /\ timers s' = [].
Proof.
  intros H Ht; simpl run.
  assert (E : step s (SaveSettled id false)
              = setSaveStatus unsaved
                  (console_error "Failed to save journal entry:"
                     (forget id s)))
    by (unfold step; cbn [handle]; rewrite H;
        now rewrite commit_idle by reflexivity).
  rewrite E.
  destruct (@wait_without_timers waits
              (setSaveStatus unsaved
                 (console_error "Failed to save journal entry:"
                    (forget id s))) Ht) as (H1 & H2 & H3 & H4).
  cbv zeta; rewrite H1, H2, H3, H4; auto.
Qed.

Lemma failed_save_is_not_retried_witness :
  let s := run opened [Edit (js "Hello"); Elapse 1000] in
  calls (run s [SaveSettled 6 false; Elapse 2000; Elapse 3000]) = calls s.
Proof.
  intros s.
  destruct (@failed_save_is_not_retried s 6
              {| c_directory := journalDirectory s;
                 c_entry := currentEntry s;
                 c_content := js "Hello" |} [2000; 3000])
    as [H _]; [reflexivity|reflexivity|exact H].
Defined.

(** ** Directory and entry stay *)

Lemma configured_step s e :
  configured (journalDirectory s) = true ->
  configured (journalDirectory (step s e)) = true.
Proof.
  intros H; unfold step; rewrite directory_commit.
  destruct (directory_handle e s) as [E|E]; congruence.
Qed.

Lemma entry_step s e :
  currentEntry s <> None -> currentEntry (step s e) <> None.
Proof. intros H; unfold step; now apply entry_commit, entry_handle. Qed.

(** X5: Once a run from the first render has a directory, it has an open
    entry, and whatever the events that follow, it keeps a directory and an
    open entry: nothing resets [journalDirectory] or [currentEntry] to
    null. *)
Theorem directory_and_entry_stay d evs more :
  let s := run (init d) evs in
  configured (journalDirectory s) = true ->
  currentEntry s <> None
  /\ configured (journalDirectory (run s more)) = true
  /\ currentEntry (run s more) <> None.
Proof.
  intros s Hc.
  assert (He : currentEntry s <> None)
    by (destruct (settled_run evs (settled_init d)) as [_ H]; auto).
  split; [exact He|].
  clearbody s; revert s Hc He.
  induction more as [|e more IH]; intros s Hc He; [auto|].
  apply IH; [apply configured_step, Hc|apply entry_step, He].
Qed.

Lemma directory_and_entry_stay_witness :
  currentEntry
    (run (run (init jan20) [SettingsLoaded (Some journal)]) [GoToToday])
  <> None.
Proof.
  destruct (@directory_and_entry_stay jan20 [SettingsLoaded (Some journal)]
              [GoToToday] eq_refl) as (_ & _ & H).
  exact H.
Defined.


(** ** The first directory *)

Lemma first_pass_opens_today prev h c d :
  timers_wf h = true -> configured (c_directory prev) = false ->
  journalDirectory h = Some (c :: d) -> currentEntry h = None ->
  effects prev (render h) h
  = setCurrentEntry_new (today_entry h)
      (invoke (list_journal_entries (c :: d)) (after_list false)
         (set_cleanup None (set_timers [] h))).
Proof.
  intros Hwf Hc Hd He.
  rewrite effects_directory
    by (apply configured_differs; [exact Hc|simpl; now rewrite Hd]).
  rewrite cleanup_clears by exact Hwf.
  unfold debounce_effect, loadEntry, default_entry_effect, loadEntries,
    render; simpl; rewrite Hd, He; reflexivity.
Qed.

Lemma commit_first_directory prev h c d :
  timers_wf h = true -> configured (c_directory prev) = false ->
  journalDirectory h = Some (c :: d) -> currentEntry h = None ->
  commit prev h
  = let s1 := setCurrentEntry_new (today_entry h)
                (invoke (list_journal_entries (c :: d)) (after_list false)
                   (set_cleanup None (set_timers [] h))) in
    set_cleanup (Some (S (next_id s1)))
      (setTimeout (render s1) 1000
         (setSaveStatus unsaved
            (invoke (load_journal (today h ++ js ".md") (c :: d)) after_load
               (set_cleanup None (set_timers [] s1))))).
Proof.
  intros Hwf Hc Hd He; unfold commit.
  rewrite (@first_pass_opens_today prev h c d) by assumption.
  rewrite effects_entry;
    [|reflexivity|unfold render; simpl; now rewrite He].
  rewrite cleanup_clears by reflexivity.
  unfold default_entry_effect, loadEntry, debounce_effect, render; simpl.
  rewrite Hd; reflexivity.
Qed.

(** X6: The first directory opens the entry of today. In a state with no
    directory and no entry, a directory that arrives from the settings or
    from the dialog (both give the same state) is stored, the entry of
    today becomes the current entry, the list of entries and then the file
    of today are asked from the backend in that directory, the buffer is
    left as it is, and the debounce is armed for 1000 ms over that buffer
    with the status unsaved. *)
Theorem first_directory_opens_today s dir :
  timers_wf s = true -> configured (journalDirectory s) = false ->
  currentEntry s = None -> dir <> [] ->
  let s' := step s (SettingsLoaded (Some dir)) in
  step s (DirectorySelected (Some dir)) = s'
  /\ journalDirectory s' = Some dir
  /\ option_map obj (currentEntry s') = Some (today_entry s)
  /\ calls s'
     = load_journal (today s ++ js ".md") dir
         :: list_journal_entries dir :: calls s
  /\ content s' = content s
  /\ saveStatus s' = unsaved
  /\ timers s'
     = [{| timer_id := S (S (S (next_id s))); delay := 1000;
           deadline := now s + 1000;
           callback := {| c_directory := Some dir;
                          c_entry := currentEntry s';
                          c_content := content s |} |}].
Proof.
  intros Hwf Hc He Hne s'; split; [reflexivity|].
  destruct dir as [|c d]; [easy|].
  assert (E : s' = step s (SettingsLoaded (Some (c :: d)))) by reflexivity.
  clearbody s'; unfold step in E; cbn [handle chooseDirectory] in E.
  rewrite (@commit_first_directory _ _ c d) in E;
    [|rewrite <- Hwf; apply timers_wf_frame; reflexivity
     |exact Hc|reflexivity|exact He].
  subst s'; repeat split.
Qed.

Lemma first_directory_opens_today_witness :
  calls (step (init jan20) (SettingsLoaded (Some journal)))
  = [load_journal (js "2026-01-20.md") journal;
     list_journal_entries journal].
Proof.
  destruct (@first_directory_opens_today (init jan20) journal)
    as (_ & _ & _ & H & _);
    [reflexivity|reflexivity|reflexivity|discriminate|exact H].
Defined.

(** ** Switching and loading *)

(** X7: Selecting another entry of the sidebar sends one call, the load of
    that entry; the buffer is not saved first. The entry becomes the
    current one, the buffer still holds the text of the entry that was
    left, the status is unsaved, and the one timer armed is due in 1000 ms
    and holds the new entry with the old text. *)
Theorem selecting_only_loads s d e i e' :
  timers_wf s = true -> journalDirectory s = Some d -> d <> [] ->
  currentEntry s = Some e -> nth_error (entries s) i = Some e' ->
  oid e' <> oid e ->
  let s1 := step s (SelectEntry i) in
  currentEntry s1 = Some e'
  /\ content s1 = content s
  /\ saveStatus s1 = unsaved
  /\ calls s1 = load_journal (filename (obj e')) d :: calls s
  /\ timers s1
     = [{| timer_id := S (next_id s); delay := 1000;
           deadline := now s + 1000;
           callback := {| c_directory := Some d; c_entry := Some e';
                          c_content := content s |} |}].
Proof.
  intros Hwf Hd Hne He Hi Hoid s1.
  assert (E : s1 = step s (SelectEntry i)) by reflexivity; clearbody s1.
  unfold step in E; cbn [handle] in E; rewrite Hi in E.
  rewrite (@commit_switch _ _ d e') in E;
    [|rewrite <- Hwf; apply timers_wf_frame; reflexivity
     |exact Hd|exact Hne|reflexivity|exact Hd|].
  - subst s1; unfold render; simpl; rewrite Hd; repeat split.
  - cbn [render c_entry]; rewrite He; simpl.
    apply Nat.eqb_neq; congruence.
Qed.

Lemma selecting_only_loads_witness :
  calls (step opened (SelectEntry 0))
  = load_journal (js "Trip.md") journal :: calls opened.
Proof.
  destruct (@selecting_only_loads opened journal
              {| oid := 1; obj := today_entry opened |} 0
              {| oid := 4; obj := trip |})
    as (_ & _ & _ & H & _);
    [reflexivity|reflexivity|discriminate|reflexivity|reflexivity
    |discriminate|exact H].
Defined.

(** A load that brings a text other than the buffer. *)
Lemma load_text_step s id d e text :
  timers_wf s = true -> awaiting id s = Some after_load ->
  journalDirectory s = Some d -> d <> [] -> currentEntry s = Some e ->
  text <> content s ->
  step s (LoadSettled id (resolved (Some text)))
  = set_cleanup (Some (next_id s))
      (setTimeout
         {| c_directory := Some d; c_entry := Some e; c_content := text |}
         1000
         (setSaveStatus unsaved
            (set_cleanup None
               (set_timers []
                  (setSaveStatus saved (setContent text (forget id s))))))).
Proof.
  intros Hwf H Hd Hne He Ht; unfold step; cbn [handle]; rewrite H.
  unfold loadEntry_settled.
  rewrite commit_one_pass; rewrite effects_content;
    try (simpl; congruence).
  - rewrite cleanup_clears
      by (rewrite <- Hwf; apply timers_wf_frame; reflexivity).
    unfold debounce_effect, render; simpl; rewrite Hd, He.
    destruct d as [|c d]; [easy|]; reflexivity.
  - now rewrite render_debounce_effect, render_debounce_cleanup.
Qed.

(** X8: A text that is loaded is written back. When a load settles with a
    text that differs from the buffer, the buffer becomes that text and no
    call is sent at once, but the change of the buffer arms the debounce,
    so the status ends as unsaved, not saved, and 1000 ms later the loaded
    text is saved to the file of the current entry. *)
Theorem loaded_text_is_saved_back s id d e text :
  timers_wf s = true -> awaiting id s = Some after_load ->
  journalDirectory s = Some d -> d <> [] -> currentEntry s = Some e ->
  text <> content s ->
  let s1 := step s (LoadSettled id (resolved (Some text))) in
  content s1 = text
  /\ saveStatus s1 = unsaved
  /\ calls s1 = calls s
  /\ calls (step s1 (Elapse 1000))
     = save_journal (filename (obj e)) text d :: calls s.
Proof.
  intros Hwf H Hd Hne He Ht s1; subst s1.
  rewrite (@load_text_step s id d e text) by assumption.
  rewrite step_elapse.
  erewrite elapse_due; [|reflexivity|simpl; lia].
  unfold saveEntry; simpl; destruct d as [|c d]; [easy|]; repeat split.
Qed.

Lemma loaded_text_is_saved_back_witness :
  let s := run opened [SelectEntry 0] in
  let s1 := step s (LoadSettled 5 (resolved (Some (js "Packing list")))) in
  calls (step s1 (Elapse 1000))
  = save_journal (js "Trip.md") (js "Packing list") journal :: calls s.
Proof.
  intros s s1.
  destruct (@loaded_text_is_saved_back s 5 journal
              {| oid := 4; obj := trip |} (js "Packing list"))
    as (_ & _ & _ & H);
    [reflexivity|reflexivity|reflexivity|discriminate|reflexivity
    |intros E; vm_compute in E; discriminate|exact H].
Defined.

(** ** Titles that look like dates *)

Lemma today_effects prev cur s : today (effects prev cur s) = today s.
Proof.
  unfold effects, debounce_effect, loadEntry, default_entry_effect,
    loadEntries, debounce_cleanup; break_if; break_match; reflexivity.
Qed.

Lemma today_fire due : forall s,
  today (fold_left (fun acc tm => saveEntry (callback tm) acc) due s)
  = today s.
Proof.
  induction due as [|t due IH]; intros s; simpl; [reflexivity|].
  rewrite IH; unfold saveEntry; break_match; reflexivity.
Qed.

Lemma today_step s e : today (step s e) = today s.
Proof.
  unfold step, commit; rewrite !today_effects.
  destruct e; cbn [handle];
    try (unfold elapse; destruct (partition _ _); now rewrite today_fire);
    unfold_handlers; break_match; reflexivity.
Qed.

Lemma render_commit_open prev s :
  currentEntry s <> None -> render (commit prev s) = render s.
Proof.
  intros H; unfold commit.
  assert (E : render (effects prev (render s) s) = render s)
    by (apply render_effects_open; exact H).
  rewrite render_effects_open; [exact E|].
  rewrite E; exact H.
Qed.

(** X9: A title that is the date of today gives the file of the daily
    entry. Creating an entry with that title opens a titled entry whose
    filename is the one of the entry of today; [isToday] holds of it, and
    since it is titled, deleting it (once confirmed) asks the backend to
    delete the daily file. *)
Theorem date_as_title_shares_daily_file s d :
  journalDirectory s = Some d -> d <> [] ->
  newEntryTitle s = today s -> today s <> [] ->
  Forall (fun c => is_space c = false /\ is_reserved c = false) (today s) ->
  let s1 := step s CreateNewEntry in
  option_map obj (currentEntry s1)
  = Some {| filename := filename (today_entry s); entry_type := titled;
            title := today s; date := None |}
  /\ isToday s1 = true
  /\ calls (step s1 (DeleteEntry true))
     = delete_journal (filename (today_entry s)) d :: calls s1.
Proof.
  intros Hd Hne Ht Hnb Hclean s1.
  assert (Hs : sanitizedTitle (today s) = today s)
    by apply sanitizedTitle_plain, Hclean.
  assert (Hb : is_empty (trim (newEntryTitle s)) = false).
  { rewrite Ht, is_empty_trim; destruct (today s) as [|c t]; [easy|].
    apply Forall_inv in Hclean as [Hc _]; simpl; now rewrite Hc. }
  assert (Hr : render s1
               = render (handleCreateNewEntry s))
    by (apply render_commit_open; unfold handleCreateNewEntry;
        rewrite Hb; discriminate).
  unfold handleCreateNewEntry in Hr; rewrite Hb, Ht in Hr.
  unfold titled_filename in Hr; rewrite Hs in Hr.
  assert (He : currentEntry s1 = c_entry (render s1)) by reflexivity.
  assert (Hd1 : journalDirectory s1 = c_directory (render s1))
    by reflexivity.
  rewrite Hr in He, Hd1; simpl in He, Hd1; rewrite Hd in Hd1.
  assert (Htoday : today s1 = today s) by apply today_step.
  split; [now rewrite He|split].
  - unfold isToday; rewrite He, Htoday; simpl; apply str_eqb_refl.
  - unfold step at 1; cbn [handle]; unfold handleDeleteEntry.
    rewrite Hd1, He; simpl; destruct d as [|c d]; [easy|].
    now rewrite commit_idle by reflexivity.
Qed.

Lemma date_as_title_shares_daily_file_witness :
  let s := setNewEntryTitle jan20 opened in
  let s1 := step s CreateNewEntry in
  calls (step s1 (DeleteEntry true))
  = delete_journal (filename (today_entry s)) journal :: calls s1.
Proof.
  intros s s1.
  destruct (@date_as_title_shares_daily_file s journal) as (_ & _ & H);
    [vm_compute; reflexivity|discriminate|vm_compute; reflexivity
    |intros E; vm_compute in E; discriminate
    |vm_compute; repeat constructor|exact H].
Defined.



(** ** The theme and the store *)

Lemma theme_inv_mount d prefersDark :
  theme_inv (settings (mount d prefersDark)).
Proof. split; [discriminate|reflexivity]. Qed.

Lemma theme_inv_step a ev :
  theme_inv (settings a) -> theme_inv (settings (app_step a ev)).
Proof.
  destruct a as [s [dm sl rd st co]]; unfold theme_inv; simpl.
  destruct ev as [e| |r|]; simpl.
  - destruct e; simpl; try exact (fun H => H).
    + destruct rd; simpl; try exact (fun H => H).
      destruct sl; simpl; [intros [H _]; discriminate|].
      intros [_ H]; split; [discriminate|exact H].
    + destruct selected as [[|c d]|]; simpl; try exact (fun H => H).
  - destruct rd; simpl; try exact (fun H => H).
    destruct sl; simpl; [intros [H _]; discriminate|].
    unfold dark_mode_effect; simpl; rewrite andb_false_r; simpl; auto.
  - destruct rd; simpl; try exact (fun H => H).
    destruct sl; simpl; [intros [H _]; discriminate|].
    destruct r as [[b|]|]; unfold dark_mode_effect; simpl;
      rewrite andb_false_r; simpl; auto.
  - unfold dark_mode_effect; simpl.
    destruct dm, sl; simpl; intros [H1 H2]; auto.
Qed.

Lemma theme_inv_run evs : forall a,
  theme_inv (settings a) -> theme_inv (settings (app_run a evs)).
Proof.
  induction evs as [|ev evs IH]; intros a H; [exact H|].
  apply IH, theme_inv_step, H.
Qed.

(** X10: Until [loadSettings] has finished, the dark mode is never written
    to the preference store, whatever was toggled in the meantime. *)
Theorem theme_not_written_before_load d prefersDark evs :
  let t := settings (app_run (mount d prefersDark) evs) in
  settingsLoaded t = false -> forall b, ~ In (set_dark_mode b) (store t).
Proof.
  intros t Hl b Hin.
  pose proof (theme_inv_run evs _ (theme_inv_mount d prefersDark)) as H.
  fold t in H; unfold theme_inv in H; rewrite Hl in H; destruct H as [_ H].
  assert (Hf : In (set_dark_mode b) (filter is_dark_mode_write (store t)))
    by (apply filter_In; auto).
  now rewrite H in Hf.
Qed.

Lemma theme_not_written_before_load_witness :
  ~ In (set_dark_mode false)
      (store (settings (app_run (mount jan20 true) [ToggleDarkMode]))).
Proof.
  apply (@theme_not_written_before_load jan20 true [ToggleDarkMode]).
  reflexivity.
Defined.

(** X11: Once [loadSettings] has finished, the dark mode has been written
    to the preference store, and the value written last is the value shown. *)
Theorem theme_written_is_theme_shown d prefersDark evs :
  let t := settings (app_run (mount d prefersDark) evs) in
  settingsLoaded t = true ->
  find is_dark_mode_write (store t) = Some (set_dark_mode (darkMode t)).
Proof.
  intros t Hl.
  pose proof (theme_inv_run evs _ (theme_inv_mount d prefersDark)) as H.
  fold t in H; unfold theme_inv in H; rewrite Hl in H; apply H.
Qed.

Lemma theme_written_is_theme_shown_witness :
  let t := settings
             (app_run (mount jan20 true)
                [Core (SettingsLoaded None); DarkModeRead (resolved None);
                 ToggleDarkMode]) in
  find is_dark_mode_write (store t) = Some (set_dark_mode false).
Proof.
  intros t.
  apply (@theme_written_is_theme_shown jan20 true
           [Core (SettingsLoaded None); DarkModeRead (resolved None);
            ToggleDarkMode]).
  reflexivity.
Defined.

Lemma reads_step a ev :
  is_reading_directory (settings a) = false ->
  is_reading_directory (settings (app_step a ev)) = false
  /\ filter is_dark_mode_read (store (settings (app_step a ev)))
     = filter is_dark_mode_read (store (settings a)).
Proof.
  destruct a as [s [dm sl rd st co]]; unfold is_reading_directory; simpl.
  intros H; destruct ev as [e| |r|]; simpl.
  - destruct e; simpl; auto.
    + unfold is_reading_directory; simpl; rewrite H; auto.
    + destruct selected as [[|c d]|]; auto.
  - unfold is_reading_directory; simpl; rewrite H; auto.
  - unfold is_reading_dark_mode, dark_mode_effect; simpl.
    destruct rd; simpl; auto; destruct r as [[b|]|]; simpl;
      break_if; simpl; auto.
  - unfold dark_mode_effect; simpl; break_if; simpl; auto.
Qed.

Lemma reads_run evs : forall a,
  is_reading_directory (settings a) = false ->
  filter is_dark_mode_read (store (settings (app_run a evs)))
  = filter is_dark_mode_read (store (settings a)).
Proof.
  induction evs as [|ev evs IH]; intros a H; [reflexivity|].
  destruct (reads_step a ev H) as [H1 H2]; simpl.
  now rewrite IH, H2.
Qed.

(** Until the directory has been read, the dark mode has not been asked
    for. *)
Lemma unread_run evs : forall a,
  (is_reading_directory (settings a) = true ->
   filter is_dark_mode_read (store (settings a)) = []) ->
  is_reading_directory (settings (app_run a evs)) = true ->
  filter is_dark_mode_read (store (settings (app_run a evs))) = [].
Proof.
  induction evs as [|ev evs IH]; intros a H; [exact H|].
  apply IH; clear IH.
  destruct (is_reading_directory (settings a)) eqn:E.
  - specialize (H eq_refl).
    destruct a as [s [dm sl rd st co]]; unfold is_reading_directory in *;
      simpl in *.
    destruct rd; try discriminate.
    destruct ev as [e| |r|]; simpl; auto.
    + destruct e; simpl; auto; try discriminate.
      destruct selected as [[|c d]|]; auto.
    + unfold dark_mode_effect; simpl; break_if; simpl; auto; discriminate.
    + unfold dark_mode_effect; simpl; break_if; simpl; auto.
  - destruct (reads_step a ev E) as [E' _]; congruence.
Qed.

(** X12: When reading the stored directory fails, the stored dark mode is
    not read at all: the settings count as loaded, the theme shown then
    (the preference of the system, or what was toggled since) is written to
    the store, and no later event reads the stored dark mode. *)
Theorem failed_directory_read_skips_theme d prefersDark evs more :
  let a := app_run (mount d prefersDark) evs in
  is_reading_directory (settings a) = true ->
  let a' := app_step a DirectoryReadFailed in
  settingsLoaded (settings a') = true
  /\ store (settings a')
     = set_dark_mode (darkMode (settings a)) :: store (settings a)
  /\ ~ In get_dark_mode (store (settings (app_run a' more))).
Proof.
  intros a Hr a'.
  pose proof (theme_inv_run evs _ (theme_inv_mount d prefersDark)) as Hinv.
  assert (Hu : filter is_dark_mode_read (store (settings a)) = [])
    by (apply unread_run; [reflexivity|exact Hr]).
  fold a in Hinv; subst a'; clearbody a.
  destruct a as [s [dm sl rd st co]]; unfold theme_inv in Hinv;
    unfold is_reading_directory in Hr; simpl in *.
  destruct rd; try discriminate.
  destruct sl; [destruct Hinv; discriminate|].
  unfold is_reading_directory, dark_mode_effect; simpl.
  rewrite andb_false_r; simpl; repeat split.
  intros Hin.
  assert (Hf : In get_dark_mode
                 (filter is_dark_mode_read
                    (store (settings (app_run
                       {| core := s;
                          settings :=
                            store_invoke (set_dark_mode dm)
                              (finish_loadSettings None true
                                 {| darkMode := dm; settingsLoaded := false;
                                    reading := reading_directory;
                                    store := st;
                                    settings_console := co |}) |} more)))))
    by (apply filter_In; auto).
  rewrite reads_run in Hf by reflexivity; simpl in Hf.
  now rewrite Hu in Hf.
Qed.

Lemma failed_directory_read_skips_theme_witness :
  let a := app_step (app_run (mount jan20 true) [ToggleDarkMode])
             DirectoryReadFailed in
  store (settings a) = [set_dark_mode false; get_journal_directory]
  /\ ~ In get_dark_mode
         (store (settings
                   (app_run a [Core (SettingsLoaded (Some journal));
                               ToggleDarkMode]))).
Proof.
  intros a.
  destruct (@failed_directory_read_skips_theme jan20 true [ToggleDarkMode]
              [Core (SettingsLoaded (Some journal)); ToggleDarkMode]
              eq_refl) as (_ & H1 & H2).
  split; [exact H1|exact H2].
Defined.

Lemma toggles_while_loading n : forall a,
  settingsLoaded (settings a) = false ->
  let a' := app_run a (repeat ToggleDarkMode n) in
  settingsLoaded (settings a') = false
  /\ reading (settings a') = reading (settings a)
  /\ store (settings a') = store (settings a).
Proof.
  induction n as [|n IH]; intros a H; simpl; [auto|].
  destruct a as [s [dm sl rd st co]]; simpl in H; subst sl.
  unfold dark_mode_effect; simpl; rewrite andb_true_r.
  destruct (Bool.eqb dm (negb dm)); simpl;
    match goal with |- context [app_run ?x _] =>
      destruct (IH x eq_refl) as (H1 & H2 & H3) end; auto.
Qed.

(** X13: A stored dark mode replaces whatever was toggled while it was
    read: after any number of toggles, the stored value that arrives is the
    one shown, it is written back to the store, and none of the toggled
    values was written. *)
Theorem stored_theme_wins a n stored :
  is_reading_dark_mode (settings a) = true ->
  settingsLoaded (settings a) = false ->
  let a' := app_run a (repeat ToggleDarkMode n
                       ++ [DarkModeRead (resolved (Some stored))]) in
  darkMode (settings a') = stored
  /\ settingsLoaded (settings a') = true
  /\ store (settings a') = set_dark_mode stored :: store (settings a).
Proof.
  intros Hr Hl a'; subst a'; unfold app_run; rewrite fold_left_app.
  fold (app_run a (repeat ToggleDarkMode n)).
  destruct (toggles_while_loading n a Hl) as (H1 & H2 & H3).
  destruct (app_run a (repeat ToggleDarkMode n)) as [s [dm sl rd st co]].
  simpl in *; subst sl st.
  unfold is_reading_dark_mode in *; simpl in *; rewrite H2.
  destruct (reading (settings a)); try discriminate; simpl.
  unfold dark_mode_effect; simpl; rewrite andb_false_r; auto.
Qed.

Lemma stored_theme_wins_witness :
  let a := app_step (mount jan20 true) (Core (SettingsLoaded None)) in
  darkMode
    (settings
       (app_run a [ToggleDarkMode; ToggleDarkMode; ToggleDarkMode;
                   DarkModeRead (resolved (Some true))]))
  = true.
Proof.
  intros a.
  destruct (@stored_theme_wins a 3 true) as (H & _);
    [reflexivity|reflexivity|exact H].
Defined.


(** ** Another directory *)

(** X14: Choosing another directory while an entry is open keeps the entry
    and the buffer, lists the new directory, loads the file of the same
    name from it, and arms the debounce over the buffer as it is, which
    holds the text from the old directory, with the status unsaved. *)
Theorem changing_directory_reloads s d e d' :
  timers_wf s = true -> journalDirectory s = Some d ->
  currentEntry s = Some e -> d' <> [] -> d' <> d ->
  let s' := step s (DirectorySelected (Some d')) in
  journalDirectory s' = Some d'
  /\ currentEntry s' = Some e
  /\ content s' = content s
  /\ saveStatus s' = unsaved
  /\ calls s'
     = load_journal (filename (obj e)) d'
         :: list_journal_entries d' :: calls s
  /\ timers s'
     = [{| timer_id := S (S (next_id s)); delay := 1000;
           deadline := now s + 1000;
           callback := {| c_directory := Some d'; c_entry := Some e;
                          c_content := content s |} |}].
Proof.
  intros Hwf Hd He Hne Hdiff s'.
  destruct d' as [|c d']; [easy|].
  assert (E : s' = step s (DirectorySelected (Some (c :: d'))))
    by reflexivity.
  clearbody s'; unfold step in E; cbn [handle chooseDirectory] in E.
  set (h := setJournalDirectory (Some (c :: d')) s) in E.
  assert (E1 : effects (render s) (render h) h
               = set_cleanup (Some (S (S (next_id s))))
                   (setTimeout (render h) 1000
                      (setSaveStatus unsaved
                         (invoke (load_journal (filename (obj e)) (c :: d'))
                            after_load
                            (invoke (list_journal_entries (c :: d'))
                               (after_list false)
                               (set_cleanup None (set_timers [] h))))))).
  { rewrite effects_directory
      by (cbn [render c_directory]; rewrite Hd; simpl;
          apply str_eqb_neq; congruence).
    rewrite cleanup_clears
      by (rewrite <- Hwf; apply timers_wf_frame; reflexivity).
    unfold debounce_effect, loadEntry, default_entry_effect, loadEntries,
      render; simpl; rewrite He; reflexivity. }
  rewrite commit_one_pass in E by (rewrite E1; reflexivity).
  rewrite E1 in E.
  subst s'; unfold render; simpl; rewrite He; repeat split.
Qed.

Lemma changing_directory_reloads_witness :
  calls (step opened (DirectorySelected (Some (js "/mnt/usb"))))
  = load_journal (js "2026-01-20.md") (js "/mnt/usb")
      :: list_journal_entries (js "/mnt/usb") :: calls opened.
Proof.
  destruct (@changing_directory_reloads opened journal
              {| oid := 1; obj := today_entry opened |} (js "/mnt/usb"))
    as (_ & _ & _ & _ & H & _);
    [reflexivity|reflexivity|reflexivity|discriminate|discriminate|exact H].
Defined.

(** ** The sections of the sidebar *)

(** X15: The two sections of the sidebar split the list of entries: every
    entry is shown in one of them, none in both, and together they have as
    many entries as the list. *)
Theorem sidebar_sections_partition s :
  Permutation (entries s) (dailyEntries s ++ titledEntries s)
  /\ (forall e, In e (dailyEntries s) -> ~ In e (titledEntries s))
  /\ List.length (dailyEntries s) + List.length (titledEntries s)
     = List.length (entries s).
Proof.
  unfold dailyEntries, titledEntries; repeat split.
  - induction (entries s) as [|e l IH]; simpl; [constructor|].
    unfold is_daily at 1, is_titled at 1; destruct (entry_type (obj e)).
    + now constructor.
    + now apply Permutation_cons_app.
  - intros e H1 H2; apply filter_In in H1 as [_ H1].
    apply filter_In in H2 as [_ H2].
    unfold is_daily, is_titled in *; destruct (entry_type (obj e));
      discriminate.
  - induction (entries s) as [|e l IH]; simpl; [reflexivity|].
    unfold is_daily at 1, is_titled at 1; destruct (entry_type (obj e));
      simpl; rewrite ?length_app in *; simpl; lia.
Qed.

(** ** Titles and filenames *)

(** X16: The filename of a created entry holds none of the nine reserved
    characters, whatever the title. *)
Theorem filename_has_no_reserved_character t :
  Forall (fun c => is_reserved c = false) (titled_filename t).
Proof.
  unfold titled_filename; apply Forall_app; split.
  - apply sanitizedTitle_shape.
  - repeat constructor.
Qed.

(** X17: In a sanitized title every whitespace character is the space
    U+0020, no two whitespace characters are adjacent, and the title
    neither starts nor ends with one. *)
Theorem sanitized_title_is_single_spaced t :
  let out := sanitizedTitle t in
  (forall c, In c out -> is_space c = true -> c = space)
  /\ (forall l1 x y l2,
        out = l1 ++ x :: y :: l2 -> is_space x = true -> is_space y = false)
  /\ hd_error (map is_space out) <> Some true
  /\ hd_error (map is_space (rev out)) <> Some true.
Proof.
  intros out; split; [|split].
  - apply replace_spaces_from_space.
  - intros l1 x y l2 E; eapply replace_spaces_from_pairs; exact E.
  - apply sanitizedTitle_shape.
Qed.

(** X18: Sanitizing is idempotent: a sanitized title is its own sanitized
    title, so a title and its sanitized form give the same filename. *)
Theorem sanitizing_again_changes_nothing t :
  sanitizedTitle (sanitizedTitle t) = sanitizedTitle t
  /\ titled_filename (sanitizedTitle t) = titled_filename t.
Proof.
  unfold titled_filename; now rewrite sanitizedTitle_twice.
Qed.

(** X19: [handleCreateNewEntry] does nothing when the title is empty or
    made of whitespace only. For any other title the sanitized title is not
    empty, it is the title of the entry that is opened, and the buffer is
    emptied. *)
Theorem blank_titles_are_refused s :
  if forallb is_space (newEntryTitle s)
  then step s CreateNewEntry = s
  else sanitizedTitle (newEntryTitle s) <> []
       /\ option_map (fun e => title (obj e))
            (currentEntry (step s CreateNewEntry))
          = Some (sanitizedTitle (newEntryTitle s))
       /\ content (step s CreateNewEntry) = [].
Proof.
  destruct (forallb is_space (newEntryTitle s)) eqn:H.
  - unfold step; cbn [handle]; unfold handleCreateNewEntry.
    rewrite is_empty_trim, H; now apply commit_idle.
  - split.
    + intros E; apply sanitizedTitle_empty_iff in E; congruence.
    + assert (Hr : render (step s CreateNewEntry)
                   = render (handleCreateNewEntry s))
        by (apply render_commit_open; unfold handleCreateNewEntry;
            rewrite is_empty_trim, H; discriminate).
      unfold handleCreateNewEntry in Hr; rewrite is_empty_trim, H in Hr.
      change (currentEntry (step s CreateNewEntry))
        with (c_entry (render (step s CreateNewEntry))).
      change (content (step s CreateNewEntry))
        with (c_content (render (step s CreateNewEntry))).
      rewrite Hr; split; reflexivity.
Qed.


(** ** One entry for the day *)

Lemma single_day_texts_effects prev cur s :
  SingleDay.texts_inv s -> SingleDay.texts_inv (SingleDay.effects prev cur s).
Proof.
  intros H; unfold SingleDay.effects.
  assert (Hcl : SingleDay.texts_inv (debounce_cleanup s)).
  { destruct H as [Ht Hc].
    unfold debounce_cleanup, clearTimeout; destruct (cleanup s);
      split; simpl; auto.
    rewrite Forall_forall in *; intros t H.
    apply filter_In in H as [H _]; auto. }
  assert (Hl : forall x, SingleDay.texts_inv x ->
                         SingleDay.texts_inv (SingleDay.loadEntry cur x)).
  { intros x [H1 H2]; unfold SingleDay.loadEntry; break_match;
      split; simpl; auto. }
  assert (Hd : forall x, SingleDay.texts_inv x ->
                         SingleDay.texts_inv (SingleDay.debounce_effect cur x)).
  { intros x [H1 H2]; unfold SingleDay.debounce_effect; break_match;
      split; simpl; auto.
    apply Forall_app; split; [exact H1|].
    repeat constructor; simpl; congruence. }
  break_if; auto.
Qed.

Lemma single_day_texts_fire due : forall s,
  Forall (fun t => c_content (callback t) <> []) due ->
  SingleDay.texts_inv s ->
  SingleDay.texts_inv
    (fold_left (fun acc tm => SingleDay.saveEntry (callback tm) acc) due s).
Proof.
  induction due as [|t due IH]; intros s Hd H; simpl; [exact H|].
  apply Forall_cons_iff in Hd as [Ht Hd]; apply IH; [exact Hd|].
  destruct H as [H1 H2]; unfold SingleDay.saveEntry; break_match;
    split; simpl; auto.
Qed.

Lemma single_day_texts_handle e s :
  SingleDay.texts_inv s -> SingleDay.texts_inv (SingleDay.handle e s).
Proof.
  intros H; destruct e; cbn [SingleDay.handle]; try exact H.
  - unfold chooseDirectory; break_match; exact H.
  - unfold chooseDirectory; break_match; exact H.
  - unfold SingleDay.elapse; rewrite partition_as_filter.
    destruct H as [H1 H2]; apply single_day_texts_fire.
    + rewrite Forall_forall in *; intros t Ht.
      apply filter_In in Ht as [Ht _]; auto.
    + split; simpl; [|exact H2].
      rewrite Forall_forall in *; intros t Ht.
      apply filter_In in Ht as [Ht _]; auto.
  - break_match; try exact H;
      unfold SingleDay.loadEntry_settled; break_match; exact H.
  - break_match; try exact H;
      unfold SingleDay.saveEntry_settled; break_match; exact H.
Qed.

(** X20: In the revision with one entry for the day, no run from the first
    render ever sends a save of the empty text. *)
Theorem single_day_never_saves_empty_text d evs :
  Forall (fun c => match c with
                   | save_journal _ text _ => text <> []
                   | _ => True
                   end) (calls (SingleDay.run (init d) evs)).
Proof.
  assert (H : forall evs s, SingleDay.texts_inv s ->
                            SingleDay.texts_inv (SingleDay.run s evs)).
  { clear evs; induction evs as [|e evs IH]; intros s H; [exact H|].
    apply IH; unfold SingleDay.step.
    apply single_day_texts_effects, single_day_texts_handle, H. }
  apply (H evs (init d)); split; constructor.
Qed.

Lemma single_day_effects_refl r s : SingleDay.effects r r s = s.
Proof.
  unfold SingleDay.effects.
  now rewrite same_directory_refl, str_eqb_refl.
Qed.

Lemma single_day_step_idle s e :
  render (SingleDay.handle e s) = render s ->
  SingleDay.step s e = SingleDay.handle e s.
Proof.
  intros H; unfold SingleDay.step; rewrite H.
  apply single_day_effects_refl.
Qed.

Lemma single_day_wait waits : forall s,
  timers s = [] ->
  let s' := SingleDay.run s (map Elapse waits) in
  timers s' = [] /\ calls s' = calls s /\ saveStatus s' = saveStatus s
  /\ content s' = content s.
Proof.
  induction waits as [|ms waits IH]; intros s Ht; simpl; [auto|].
  unfold SingleDay.step; cbn [SingleDay.handle].
  unfold SingleDay.elapse; rewrite Ht; simpl.
  rewrite single_day_effects_refl.
  destruct (IH (set_timers [] (set_now (now s + ms) s)) eq_refl)
    as (H1 & H2 & H3 & H4).
  auto.
Qed.

(** X21: In the revision with one entry for the day, erasing the whole text
    cancels the pending save and arms none: the status stays what it was,
    and however long one waits no call is sent, so the file keeps the text
    saved before. *)
Theorem single_day_erased_text_is_not_saved s waits :
  timers_wf s = true -> content s <> [] ->
  let s1 := SingleDay.step s (Edit []) in
  content s1 = [] /\ timers s1 = [] /\ saveStatus s1 = saveStatus s
  /\ calls (SingleDay.run s1 (map Elapse waits)) = calls s.
Proof.
  intros Hwf Hc s1.
  assert (E : s1 = set_cleanup None (set_timers [] (setContent [] s))).
  { unfold s1, SingleDay.step, SingleDay.effects; cbn [SingleDay.handle].
    cbn [render c_directory c_content setContent content journalDirectory].
    rewrite same_directory_refl, (str_eqb_neq Hc); simpl.
    rewrite cleanup_clears
      by (rewrite <- Hwf; apply timers_wf_frame; reflexivity).
    unfold SingleDay.debounce_effect; simpl.
    now destruct (journalDirectory s) as [[|c d]|]. }
  clearbody s1; subst s1.
  destruct (@single_day_wait waits
              (set_cleanup None (set_timers [] (setContent [] s))) eq_refl)
    as (_ & H2 & _).
  rewrite H2; repeat split.
Qed.

Lemma single_day_erased_text_is_not_saved_witness :
  let s := SingleDay.run (init jan20)
             [SettingsLoaded (Some journal); Edit (js "Hello")] in
  let s1 := SingleDay.step s (Edit []) in
  calls (SingleDay.run s1 (map Elapse [2000])) = calls s.
Proof.
  intros s s1.
  destruct (@single_day_erased_text_is_not_saved s [2000])
    as (_ & _ & _ & H); [reflexivity|discriminate|exact H].
Defined.

(** X22: In the revision with one entry for the day, opening a directory
    whose file of the day is absent or empty sends the load and nothing
    else: the status stays saved, the buffer empty, and however long one
    waits no save is sent. *)
Theorem single_day_waits_for_typing d dir r waits :
  dir <> [] -> r = None \/ r = Some [] ->
  let s := SingleDay.run (init d)
             (SettingsLoaded (Some dir) :: LoadSettled 0 (resolved r)
                :: map Elapse waits) in
  calls s = [load_journal d dir] /\ saveStatus s = saved /\ content s = []
  /\ timers s = [].
Proof.
  intros Hne Hr s; destruct dir as [|c dir]; [easy|].
  assert (E : SingleDay.run (init d)
                [SettingsLoaded (Some (c :: dir)); LoadSettled 0 (resolved r)]
              = forget 0
                  (invoke (load_journal d (c :: dir)) after_load
                     (setJournalDirectory (Some (c :: dir)) (init d))))
    by (unfold SingleDay.run; simpl fold_left;
        rewrite single_day_step_idle;
        destruct Hr as [-> | ->]; reflexivity).
  assert (Es : s = SingleDay.run
                     (forget 0
                        (invoke (load_journal d (c :: dir)) after_load
                           (setJournalDirectory (Some (c :: dir)) (init d))))
                     (map Elapse waits)).
  { unfold s.
    change (SettingsLoaded (Some (c :: dir))
              :: LoadSettled 0 (resolved r) :: map Elapse waits)
      with ([SettingsLoaded (Some (c :: dir)); LoadSettled 0 (resolved r)]
              ++ map Elapse waits).
    unfold SingleDay.run at 1; rewrite fold_left_app.
    change (fold_left SingleDay.step
              [SettingsLoaded (Some (c :: dir)); LoadSettled 0 (resolved r)]
              (init d))
      with (SingleDay.run (init d)
              [SettingsLoaded (Some (c :: dir)); LoadSettled 0 (resolved r)]).
    now rewrite E. }
  clearbody s; subst s.
  destruct (@single_day_wait waits
              (forget 0
                 (invoke (load_journal d (c :: dir)) after_load
                    (setJournalDirectory (Some (c :: dir)) (init d))))
              eq_refl) as (H1 & H2 & H3 & H4).
  rewrite H1, H2, H3, H4; repeat split.
Qed.

Lemma single_day_waits_for_typing_witness :
  calls (SingleDay.run (init jan20)
           (SettingsLoaded (Some journal) :: LoadSettled 0 (resolved None)
              :: map Elapse [1000; 1000]))
  = [load_journal jan20 journal].
Proof.
  destruct (@single_day_waits_for_typing jan20 journal None [1000; 1000])
    as (H & _); [discriminate|left; reflexivity|exact H].
Defined.

(** ** Dated entries *)

Lemma dated_effects_refl r v : Dated.effects r r v = v.
Proof.
  unfold Dated.effects.
  now rewrite same_directory_refl, !str_eqb_refl, Nat.eqb_refl.
Qed.

(** The effects after a render in which only the buffer or the array of
    entries changed. *)
Lemma dated_effects_save prev cur v :
  Dated.c_directory prev = Dated.c_directory cur ->
  Dated.c_date prev = Dated.c_date cur ->
  Dated.c_content prev <> Dated.c_content cur
  \/ Dated.c_entries_id prev <> Dated.c_entries_id cur ->
  Dated.effects prev cur v
  = Dated.debounce_effect cur (Dated.debounce_cleanup v).
Proof.
  intros Hd Hs H; unfold Dated.effects.
  rewrite Hd, Hs, same_directory_refl, str_eqb_refl; simpl.
  destruct H as [H|H].
  - now rewrite (str_eqb_neq H).
  - apply Nat.eqb_neq in H; rewrite H; now rewrite orb_true_r.
Qed.

Lemma dated_step_idle v e :
  Dated.render (Dated.handle e v) = Dated.render v ->
  Dated.step v e = Dated.handle e v.
Proof. intros H; unfold Dated.step; rewrite H; apply dated_effects_refl. Qed.

(** X23: In the revision with dated entries, the first text of a date that
    is not in the list is saved twice. The save that succeeds asks for the
    list; the list that arrives is a new array, so [saveEntry] changes, the
    debounce is armed again with the status unsaved, and 1000 ms later the
    same text is saved again. After that second save the list is asked for
    once more exactly when the list that arrived does not hold the date. *)
Theorem dated_new_day_is_saved_twice v d text l :
  journalDirectory (Dated.base v) = Some d -> d <> [] ->
  Dated.timers v = [] -> Dated.pending v = [] ->
  text <> content (Dated.base v) -> forallb is_space text = false ->
  Dated.includes (Dated.entries v) (Dated.selectedDate v) = false ->
  let n := next_id (Dated.base v) in
  let date := Dated.selectedDate v in
  let v1 := Dated.run v
              [Dated.Edit text; Dated.Elapse 1000;
               Dated.SaveSettled (S n) true] in
  let v2 := Dated.step v1 (Dated.ListSettled (S (S n)) (resolved l)) in
  let v3 := Dated.step v2 (Dated.Elapse 1000) in
  let v4 := Dated.step v3 (Dated.SaveSettled (S (S (S (S n)))) true) in
  calls (Dated.base v1)
  = list_journal_entries d :: save_journal date text d
      :: calls (Dated.base v)
  /\ saveStatus (Dated.base v1) = saved
  /\ Dated.entries v2 = l
  /\ saveStatus (Dated.base v2) = unsaved
  /\ calls (Dated.base v3)
     = save_journal date text d :: calls (Dated.base v1)
  /\ calls (Dated.base v4)
     = if Dated.includes l date then calls (Dated.base v3)
       else list_journal_entries d :: calls (Dated.base v3).
Proof.
  intros Hd Hne Ht Hp Htext Hblank Hinc n date0 v1 v2 v3 v4.
  subst n date0 v4 v3 v2 v1.
  destruct v as [b date ents eid sb tm cu pe];
    simpl in Hd, Ht, Hp, Htext, Hinc; subst tm pe.
  destruct b as [td ct jd st sh nt en ce nw tms cl pn ni ca co di];
    simpl in Hd, Htext; subst jd.
  destruct d as [|c d]; [easy|].
  change (Dated.run ?v0 [?e1; ?e2; ?e3])
    with (Dated.step (Dated.step (Dated.step v0 e1) e2) e3).
  cbn [Dated.base Dated.selectedDate next_id calls].
  (* the edit *)
  evar (v1 : Dated.View).
  match goal with |- context [Dated.step ?x (Dated.Edit text)] =>
    assert (E1 : Dated.step x (Dated.Edit text) = v1)
  end.
  { unfold Dated.step; cbn [Dated.handle].
    rewrite dated_effects_save;
      [|reflexivity|reflexivity|left; simpl; congruence].
    destruct cu; dated_norm; subst v1; reflexivity. }
  rewrite E1; subst v1; clear E1.
  (* the timer fires *)
  evar (v2 : Dated.View).
  match goal with |- context [Dated.step ?x (Dated.Elapse 1000)] =>
    lazymatch x with
    | Dated.step _ _ => fail
    | _ => assert (E2 : Dated.step x (Dated.Elapse 1000) = v2)
    end
  end.
  { unfold Dated.step; dated_norm; rewrite Nat.leb_refl; dated_norm.
    rewrite dated_effects_refl; subst v2; reflexivity. }
  rewrite E2; subst v2; clear E2.
  (* the save succeeds *)
  evar (v3 : Dated.View).
  match goal with |- context [Dated.step ?x (Dated.SaveSettled ?i true)] =>
    lazymatch x with
    | Dated.step _ _ => fail
    | _ => assert (E3 : Dated.step x (Dated.SaveSettled i true) = v3)
    end
  end.
  { unfold Dated.step; dated_norm; rewrite ?Nat.eqb_refl; dated_norm.
    rewrite Hinc, is_empty_trim, Hblank; dated_norm.
    rewrite dated_effects_refl; subst v3; reflexivity. }
  rewrite E3; subst v3; clear E3.
  (* the list arrives *)
  evar (v4 : Dated.View).
  match goal with |- context [Dated.step ?x (Dated.ListSettled ?i ?r)] =>
    assert (E4 : Dated.step x (Dated.ListSettled i r) = v4)
  end.
  { unfold Dated.step; dated_norm; rewrite ?Nat.eqb_refl; dated_norm.
    rewrite dated_effects_save;
      [|reflexivity|reflexivity|right; simpl; lia].
    dated_norm; rewrite ?Nat.eqb_refl; dated_norm.
    subst v4; reflexivity. }
  rewrite E4; subst v4; clear E4.
  (* the timer armed by the arrival fires *)
  evar (v5 : Dated.View).
  match goal with |- context [Dated.step ?x (Dated.Elapse 1000)] =>
    assert (E5 : Dated.step x (Dated.Elapse 1000) = v5)
  end.
  { unfold Dated.step; dated_norm; rewrite Nat.leb_refl; dated_norm.
    rewrite dated_effects_refl; subst v5; reflexivity. }
  rewrite E5; subst v5; clear E5.
  (* the second save succeeds *)
  split; [reflexivity|].
  split; [reflexivity|].
  split; [reflexivity|].
  split; [reflexivity|].
  split; [reflexivity|].
  unfold Dated.step; dated_norm; rewrite ?Nat.eqb_refl; dated_norm.
  rewrite is_empty_trim, Hblank.
  destruct (Dated.includes l date); dated_norm;
    rewrite dated_effects_refl; reflexivity.
Qed.

Lemma dated_new_day_is_saved_twice_witness :
  let v1 := Dated.run dated_opened
              [Dated.Edit (js "Hello"); Dated.Elapse 1000;
               Dated.SaveSettled 6 true] in
  let v2 := Dated.step v1 (Dated.ListSettled 7 (resolved [jan20])) in
  let v3 := Dated.step v2 (Dated.Elapse 1000) in
  calls (Dated.base v3)
  = save_journal jan20 (js "Hello") journal
      :: list_journal_entries journal
      :: save_journal jan20 (js "Hello") journal
      :: calls (Dated.base dated_opened).
Proof.
  intros v1 v2 v3.
  destruct (@dated_new_day_is_saved_twice dated_opened journal (js "Hello")
              [jan20])
    as (H1 & _ & _ & _ & H2 & _);
    [vm_compute; reflexivity|discriminate|vm_compute; reflexivity
    |vm_compute; reflexivity|intros E; vm_compute in E; discriminate
    |vm_compute; reflexivity|vm_compute; reflexivity|].
  exact (eq_trans H2 (f_equal (cons _) H1)).
Defined.

(** ** Opening a day without a file *)

(** X24: Opening the application writes a file for the day though nothing
    was typed. The first directory arms the debounce over the empty buffer;
    when the list has arrived and the load has found no file, or an empty
    one, the status reads saved and the timer is still armed, and 1000 ms
    after the start the empty text is saved under the filename of today.
    That save succeeds without asking for the list, and then no timer is
    armed. *)
Theorem opening_writes_an_empty_file d dir l r :
  dir <> [] -> r = None \/ r = Some [] ->
  let s := run (init d)
             [SettingsLoaded (Some dir); ListSettled 0 (resolved l);
              LoadSettled 2 (resolved r)] in
  let s1 := step s (Elapse 1000) in
  let s2 := step s1 (SaveSettled (4 + List.length l) true) in
  content s = [] /\ saveStatus s = saved
  /\ calls s1 = save_journal (d ++ js ".md") [] dir :: calls s
  /\ calls s2 = calls s1 /\ saveStatus s2 = saved /\ timers s2 = [].
Proof.
  intros Hne Hr s s1 s2; destruct dir as [|c dir]; [easy|].
  assert (E1 : step (init d) (SettingsLoaded (Some (c :: dir)))
               = let h := setJournalDirectory (Some (c :: dir)) (init d) in
                 let s1 := setCurrentEntry_new (today_entry h)
                             (invoke (list_journal_entries (c :: dir))
                                (after_list false)
                                (set_cleanup None (set_timers [] h))) in
                 set_cleanup (Some (S (next_id s1)))
                   (setTimeout (render s1) 1000
                      (setSaveStatus unsaved
                         (invoke (load_journal (today h ++ js ".md")
                                    (c :: dir)) after_load
                            (set_cleanup None (set_timers [] s1)))))).
  { unfold step; cbn [handle chooseDirectory].
    now rewrite (@commit_first_directory _ _ c dir). }
  subst s2 s1 s.
  change (run ?v0 [?e1; ?e2; ?e3]) with (step (step (step v0 e1) e2) e3).
  rewrite E1; clear E1.
  (* the list arrives *)
  evar (v2 : State).
  match goal with |- context [step ?x (ListSettled 0 (resolved l))] =>
    assert (E2 : step x (ListSettled 0 (resolved l)) = v2) end.
  { unfold step; state_norm; rewrite commit_idle by reflexivity.
    subst v2; reflexivity. }
  rewrite E2; subst v2; clear E2.
  (* the load finds nothing *)
  evar (v3 : State).
  match goal with |- context [step ?x (LoadSettled 2 (resolved r))] =>
    assert (E3 : step x (LoadSettled 2 (resolved r)) = v3) end.
  { destruct Hr; subst r; unfold step; state_norm;
      rewrite commit_idle by reflexivity; subst v3; reflexivity. }
  rewrite E3; subst v3; clear E3.
  (* the timer armed by the first directory fires *)
  evar (v4 : State).
  match goal with |- context [step ?x (Elapse 1000)] =>
    assert (E4 : step x (Elapse 1000) = v4) end.
  { rewrite step_elapse; erewrite elapse_due; [|reflexivity|cbn; lia].
    state_norm; subst v4; reflexivity. }
  rewrite E4; subst v4; clear E4.
  split; [reflexivity|]. split; [reflexivity|]. split; [reflexivity|].
  (* the save succeeds *)
  unfold step; cbn [handle]; state_walk.
  rewrite Nat.eqb_refl; state_norm.
  rewrite commit_idle by reflexivity.
  repeat split.
Qed.

Lemma opening_writes_an_empty_file_witness :
  calls (step opened (Elapse 1000))
  = save_journal (js "2026-01-20.md") [] journal :: calls opened.
Proof.
  destruct (@opening_writes_an_empty_file jan20 journal [trip] None)
    as (_ & _ & H & _); [discriminate|left; reflexivity|exact H].
Defined.
